(** * Skin-Analysis backend: retry, response shaping and record listing

    A shallow embedding of [Backend/server.js] and [Backend/models/Analysis.js].

    - JavaScript values are the inductive type [JSValue]: plain data and
      Error instances, with numbers as exact decimals (an integer numerator
      and a power-of-ten scale, no rounding to doubles) and strings as UTF-8
      byte strings.  Attempt counts, delays and timestamps are integers.
    - The platform builtins the server calls ([JSON.parse], [JSON.stringify],
      [ToString], [Buffer#toString("base64")]) are executable functions
      written after the ECMAScript and JSON definitions.
    - Asynchronous, throwing code is written in a small state-and-exception
      monad [M]; the world it threads records every ModelClient invocation,
      every [setTimeout] delay and every console line, in order.
    - The ModelClient and the document store are collaborators outside the
      repository: the first is an arbitrary function of the call number and
      the request, the second a collection with the documented meaning of
      the query operations the server chains. *)

From Stdlib Require Import ZArith List String Ascii Bool Lia.
From Stdlib Require Import Strings.Byte.
From Stdlib Require Import DecimalString Sorted Permutation.
Import ListNotations.

Set Warnings "-register-all".

Open Scope string_scope.
Open Scope Z_scope.

(** ** JavaScript values *)

(** [JNum n scale] is the number [n / 10^scale].  [JObj props] is a plain
    object with the own data properties [props]: none of its values can be
    called.  [JError name message] is an instance of [Error] (or of the
    subclass called [name]) with the message [message] and no enumerable
    property of its own. *)
Inductive JSValue : Type :=
| JUndefined
| JNull
| JBool (b : bool)
| JNum (n : Z) (scale : nat)
| JStr (s : string)
| JArr (items : list JSValue)
| JObj (props : list (string * JSValue))
| JError (name message : string).

Definition JInt (n : Z) : JSValue := JNum n 0.

Module JS.

(** [v == null]: the values that [?.] and [??] treat as missing. *)
Definition nullish (v : JSValue) : bool :=
  match v with
  | JUndefined | JNull => true
  | _ => false
  end.

(** ToBoolean. *)
Definition truthy (v : JSValue) : bool :=
  match v with
  | JUndefined | JNull => false
  | JBool b => b
  | JNum n _ => negb (n =? 0)
  | JStr s => negb (String.eqb s EmptyString)
  | JArr _ | JObj _ | JError _ _ => true
  end.

Fixpoint lookup (k : string) (props : list (string * JSValue)) : option JSValue :=
  match props with
  | [] => None
  | (k', v) :: rest => if String.eqb k k' then Some v else lookup k rest
  end.

(** [v?.k]: property read that never throws.  Own data properties of
    plain objects are looked up, and the name and message of an error; the
    keys the server reads ("prompt", "text", "message") are not builtin
    properties of arrays or primitives, which therefore answer
    [undefined]. *)
Definition get (v : JSValue) (k : string) : JSValue :=
  match v with
  | JObj props => match lookup k props with Some x => x | None => JUndefined end
  | JError name message =>
      if String.eqb k "message" then JStr message
      else if String.eqb k "name" then JStr name
      else JUndefined
  | _ => JUndefined
  end.

(** [a || b] and [a ?? b]. *)
Definition or_else (a b : JSValue) : JSValue := if truthy a then a else b.
Definition coalesce (a b : JSValue) : JSValue := if nullish a then b else a.

(** *** Strings *)

Definition chars (s : string) : list ascii := list_ascii_of_string s.
Definition text (l : list ascii) : string := string_of_list_ascii l.

Fixpoint join (sep : string) (parts : list string) : string :=
  match parts with
  | [] => EmptyString
  | [p] => p
  | p :: rest => p ++ sep ++ join sep rest
  end.

Definition code (c : ascii) : N := N_of_ascii c.

Definition is_digit (c : ascii) : bool :=
  ((48 <=? code c) && (code c <=? 57))%N.

Definition digit_val (c : ascii) : Z := Z.of_N (code c) - 48.

(** *** Number::toString (radix 10) *)

Definition show_Z (z : Z) : string := NilZero.string_of_int (Z.to_int z).

Fixpoint drop_zeros (l : list ascii) : list ascii :=
  match l with
  | "0"%char :: rest => drop_zeros rest
  | _ => l
  end.

Definition zeros (n : Z) : string := text (repeat "0"%char (Z.to_nat n)).

Definition show_exp (e : Z) : string :=
  (if e <? 0 then "e-" else "e+") ++ show_Z (Z.abs e).

(** The digits [s] of the value carry no trailing zero, [k] is their count and
    the value is [0.s * 10^n]; the case split is the standard's. *)
Definition Number_toString (m : Z) (scale : nat) : string :=
  if m =? 0 then "0" else
  let all := chars (show_Z (Z.abs m)) in
  let s := rev (drop_zeros (rev all)) in
  let k := Z.of_nat (List.length s) in
  let n := Z.of_nat (List.length all) - Z.of_nat scale in
  let body :=
    if (k <=? n) && (n <=? 21) then text s ++ zeros (n - k)
    else if (0 <? n) && (n <=? 21) then
      text (firstn (Z.to_nat n) s) ++ "." ++ text (skipn (Z.to_nat n) s)
    else if (-6 <? n) && (n <=? 0) then "0." ++ zeros (- n) ++ text s
    else if k =? 1 then text s ++ show_exp (n - 1)
    else text (firstn 1 s) ++ "." ++ text (skipn 1 s) ++ show_exp (n - 1)
  in (if m <? 0 then "-" else EmptyString) ++ body.

(** *** ToString *)

(** Error.prototype.toString. *)
Definition Error_toString (name message : string) : string :=
  if String.eqb name EmptyString then message
  else if String.eqb message EmptyString then name
  else name ++ ": " ++ message.

(** [None] is the TypeError that ToString throws when an object cannot be
    converted to a primitive value.  A plain object converts through
    Object.prototype.toString, unless it has a property [toString] of its
    own: that property is data, so it cannot be called, and neither
    [valueOf] of its own nor Object.prototype.valueOf yields a primitive
    value.  An array converts through [join], which converts its elements. *)
Fixpoint ToString (v : JSValue) : option string :=
  match v with
  | JUndefined => Some "undefined"
  | JNull => Some "null"
  | JBool true => Some "true"
  | JBool false => Some "false"
  | JNum n d => Some (Number_toString n d)
  | JStr s => Some s
  | JArr items =>
      option_map (join ",")
        (fold_right
           (fun x rest =>
              match (if nullish x then Some EmptyString else ToString x), rest with
              | Some s, Some l => Some (s :: l)
              | _, _ => None
              end)
           (Some []) items)
  | JObj props =>
      match lookup "toString" props with
      | Some _ => None
      | None => Some "[object Object]"
      end
  | JError name message => Some (Error_toString name message)
  end.

(** *** String.prototype.slice *)

(** Strings are UTF-8 bytes and stand for sequences of UTF-16 code units: a
    sequence of one, two or three bytes is one unit (a lone surrogate is a
    sequence of three bytes), a sequence of four bytes is a surrogate pair. *)
Definition utf8_unit (cu : N) : list ascii :=
  (if cu <? 128 then [ascii_of_N cu]
   else if cu <? 2048 then
     [ascii_of_N (192 + cu / 64); ascii_of_N (128 + cu mod 64)]
   else
     [ascii_of_N (224 + cu / 4096); ascii_of_N (128 + (cu / 64) mod 64);
      ascii_of_N (128 + cu mod 64)])%N.

(** The high surrogate of the code point that four bytes encode. *)
Definition high_surrogate (a b c : ascii) : N :=
  (let cp := (code a mod 8) * 262144 + (code b mod 64) * 4096
             + (code c mod 64) * 64 in
   55296 + (cp - 65536) / 1024)%N.

(** The first [n] code units of a string. *)
Fixpoint take_units (n : nat) (l : list ascii) : list ascii :=
  match n with
  | O => []
  | S n' =>
      match l with
      | [] => []
      | a :: rest =>
          if (code a <? 192)%N then a :: take_units n' rest
          else if (code a <? 224)%N then
            match rest with
            | b :: rest' => a :: b :: take_units n' rest'
            | _ => l
            end
          else if (code a <? 240)%N then
            match rest with
            | b :: c :: rest' => a :: b :: c :: take_units n' rest'
            | _ => l
            end
          else
            match rest with
            | b :: c :: d :: rest' =>
                match n' with
                | O => utf8_unit (high_surrogate a b c)
                | S n'' => a :: b :: c :: d :: take_units n'' rest'
                end
            | _ => l
            end
      end
  end.

(** [s.slice(0, n)]. *)
Definition slice0 (n : nat) (s : string) : string := text (take_units n (chars s)).

Arguments slice0 : simpl never.

End JS.

(** ** The JSON builtins *)

Module JSON.
Import JS.

(** *** JSON.stringify *)

Definition dquote : ascii := ascii_of_N 34.

Definition hex_digit (n : N) : ascii :=
  if (n <? 10)%N then ascii_of_N (48 + n) else ascii_of_N (87 + n).

(** One character of a string literal, escaped as QuoteJSONString does. *)
Definition quote_char (c : ascii) : string :=
  if (code c =? 34)%N then String "\" (String dquote EmptyString)
  else if (code c =? 92)%N then "\\"
  else if (code c =? 8)%N then "\b"
  else if (code c =? 12)%N then "\f"
  else if (code c =? 10)%N then "\n"
  else if (code c =? 13)%N then "\r"
  else if (code c =? 9)%N then "\t"
  else if (code c <? 32)%N then
    "\u00" ++ text [hex_digit (code c / 16); hex_digit (code c mod 16)]
  else String c EmptyString.

Definition quote (s : string) : string :=
  String dquote (concat EmptyString (map quote_char (chars s)))
  ++ String dquote EmptyString.

(** [None] is JavaScript's [undefined]: what [JSON.stringify] answers for a
    value that has no JSON text.  Inside an array such a value prints as
    [null]; inside an object its property is left out. *)
Fixpoint stringify (v : JSValue) : option string :=
  match v with
  | JUndefined => None
  | JNull => Some "null"
  | JBool true => Some "true"
  | JBool false => Some "false"
  | JNum n d => Some (Number_toString n d)
  | JStr s => Some (quote s)
  | JArr items =>
      Some ("[" ++ join ","
              (map (fun x => match stringify x with
                             | Some s => s
                             | None => "null"
                             end) items) ++ "]")
  | JObj props =>
      Some ("{" ++ join ","
              (flat_map (fun kv => match stringify (snd kv) with
                                   | Some s => [quote (fst kv) ++ ":" ++ s]
                                   | None => []
                                   end) props) ++ "}")
  | JError _ _ => Some "{}"
  end.

(** *** JSON.parse: lexical level *)

Inductive Token : Type :=
| TLBrace | TRBrace | TLBracket | TRBracket | TColon | TComma
| TStr (s : string)
| TNum (n : Z) (scale : nat)
| TTrue | TFalse | TNull.

(** UTF-8 bytes of one [\uXXXX] code unit. *)
Definition utf8 (cu : N) : list ascii :=
  (if cu <? 128 then [ascii_of_N cu]
   else if cu <? 2048 then
     [ascii_of_N (192 + cu / 64); ascii_of_N (128 + cu mod 64)]
   else
     [ascii_of_N (224 + cu / 4096); ascii_of_N (128 + (cu / 64) mod 64);
      ascii_of_N (128 + cu mod 64)])%N.

Definition hex_val (c : ascii) : option N :=
  let n := code c in
  (if (48 <=? n) && (n <=? 57) then Some (n - 48)
   else if (65 <=? n) && (n <=? 70) then Some (n - 55)
   else if (97 <=? n) && (n <=? 102) then Some (n - 87)
   else None)%N.

Fixpoint span_digits (l : list ascii) : list ascii * list ascii :=
  match l with
  | c :: rest =>
      if is_digit c then let (ds, tl) := span_digits rest in (c :: ds, tl)
      else ([], l)
  | [] => ([], [])
  end.

Definition digits_val (ds : list ascii) : Z :=
  fold_left (fun acc c => 10 * acc + digit_val c) ds 0.

(** Strip factors of ten from a scaled numerator, so that equal numbers have
    equal representations. *)
Fixpoint normalize (m : Z) (scale : nat) : Z * nat :=
  match scale with
  | O => (m, O)
  | S scale' =>
      if m mod 10 =? 0 then normalize (m / 10) scale' else (m, scale)
  end.

(** The number [sign * (int.frac) * 10^e]. *)
Definition decimal (neg : bool) (int frac : list ascii) (e : Z) : Z * nat :=
  let m := digits_val (int ++ frac)%list in
  let m := if neg then - m else m in
  let d := Z.of_nat (List.length frac) in
  if d <=? e then (m * 10 ^ (e - d), O)
  else normalize m (Z.to_nat (d - e)).

(** JSON number grammar: an optional minus; an integer part that is either a
    single 0 or starts with a digit 1 to 9; an optional fraction (a point and
    at least one digit); an optional exponent (e or E, an optional sign and at
    least one digit). *)
Definition number_exp (neg : bool) (int frac rest : list ascii)
  : option (Z * nat) :=
  match rest with
  | [] => Some (decimal neg int frac 0)
  | c :: rest' =>
      if (code c =? 101)%N || (code c =? 69)%N then
        let '(eneg, rest'') :=
          match rest' with
          | "-"%char :: r => (true, r)
          | "+"%char :: r => (false, r)
          | _ => (false, rest')
          end in
        match span_digits rest'' with
        | ((_ :: _) as es, []) =>
            Some (decimal neg int frac
                    (if eneg then - digits_val es else digits_val es))
        | _ => None
        end
      else None
  end.

Definition number_frac (neg : bool) (int rest : list ascii)
  : option (Z * nat) :=
  match rest with
  | "."%char :: rest' =>
      match span_digits rest' with
      | ((_ :: _) as fs, rest'') => number_exp neg int fs rest''
      | _ => None
      end
  | _ => number_exp neg int [] rest
  end.

Definition number (l : list ascii) : option (Z * nat) :=
  let '(neg, l') :=
    match l with
    | "-"%char :: r => (true, r)
    | _ => (false, l)
    end in
  match span_digits l' with
  | ([], _) => None
  | ("0"%char :: _ :: _, _) => None
  | (int, rest) => number_frac neg int rest
  end.

(** A maximal run of characters outside strings, white space and punctuation
    is one of the three literal names or a number. *)
Definition word (l : list ascii) : option Token :=
  let s := text l in
  if String.eqb s "true" then Some TTrue
  else if String.eqb s "false" then Some TFalse
  else if String.eqb s "null" then Some TNull
  else option_map (fun n => TNum (fst n) (snd n)) (number l).

Inductive LexMode : Type :=
| Idle
| InWord (acc : list ascii)
| InStr (acc : list ascii)
| InEsc (acc : list ascii)
| InHex (acc : list ascii) (digits : list N).

(** Accumulators hold characters most recent first; so does [out]. *)
Definition lex_idle (c : ascii) (out : list Token) : option (LexMode * list Token) :=
  let n := code c in
  (if (n =? 32) || (n =? 9) || (n =? 10) || (n =? 13) then Some (Idle, out)
   else if n =? 123 then Some (Idle, TLBrace :: out)
   else if n =? 125 then Some (Idle, TRBrace :: out)
   else if n =? 91 then Some (Idle, TLBracket :: out)
   else if n =? 93 then Some (Idle, TRBracket :: out)
   else if n =? 58 then Some (Idle, TColon :: out)
   else if n =? 44 then Some (Idle, TComma :: out)
   else if n =? 34 then Some (InStr [], out)
   else Some (InWord [c], out))%N.

Definition ends_word (c : ascii) : bool :=
  let n := code c in
  ((n =? 32) || (n =? 9) || (n =? 10) || (n =? 13) || (n =? 123) || (n =? 125)
   || (n =? 91) || (n =? 93) || (n =? 58) || (n =? 44) || (n =? 34))%N.

Definition unescape (c : ascii) : option ascii :=
  let n := code c in
  (if (n =? 34) || (n =? 92) || (n =? 47) then Some c
   else if n =? 98 then Some (ascii_of_N 8)
   else if n =? 102 then Some (ascii_of_N 12)
   else if n =? 110 then Some (ascii_of_N 10)
   else if n =? 114 then Some (ascii_of_N 13)
   else if n =? 116 then Some (ascii_of_N 9)
   else None)%N.

Definition lex_step (m : LexMode) (c : ascii) (out : list Token)
  : option (LexMode * list Token) :=
  match m with
  | Idle => lex_idle c out
  | InWord acc =>
      if ends_word c then
        match word (rev acc) with
        | Some t => lex_idle c (t :: out)
        | None => None
        end
      else Some (InWord (c :: acc), out)
  | InStr acc =>
      if (code c =? 34)%N then Some (Idle, TStr (text (rev acc)) :: out)
      else if (code c =? 92)%N then Some (InEsc acc, out)
      else if (code c <? 32)%N then None
      else Some (InStr (c :: acc), out)
  | InEsc acc =>
      if (code c =? 117)%N then Some (InHex acc [], out)
      else match unescape c with
           | Some c' => Some (InStr (c' :: acc), out)
           | None => None
           end
  | InHex acc ds =>
      match hex_val c, ds with
      | Some d, [a; b; e] =>
          Some (InStr (rev (utf8 (((a * 16 + b) * 16 + e) * 16 + d)) ++ acc)%list,
                out)
      | Some d, _ => Some (InHex acc (ds ++ [d]), out)
      | None, _ => None
      end
  end.

Definition lex_end (m : LexMode) (out : list Token) : option (list Token) :=
  match m with
  | Idle => Some (rev out)
  | InWord acc => option_map (fun t => rev (t :: out)) (word (rev acc))
  | _ => None
  end.

Fixpoint lex (s : string) (m : LexMode) (out : list Token) : option (list Token) :=
  match s with
  | EmptyString => lex_end m out
  | String c s' =>
      match lex_step m c out with
      | Some (m', out') => lex s' m' out'
      | None => None
      end
  end.

(** *** JSON.parse: structure *)

(** Array-index keys ("0", "1", ... without leading zeros) come first in an
    object, in ascending order; the other keys keep creation order. *)
Definition array_index (k : string) : option Z :=
  match chars k with
  | [] => None
  | ["0"%char] => Some 0
  | "0"%char :: _ => None
  | l => if forallb is_digit l && (digits_val l <? 4294967295)
         then Some (digits_val l) else None
  end.

(** CreateDataProperty on a plain object: an existing key keeps its place and
    takes the new value. *)
Fixpoint define (k : string) (v : JSValue) (props : list (string * JSValue))
  : list (string * JSValue) :=
  match props with
  | [] => [(k, v)]
  | (k', v') :: rest =>
      if String.eqb k k' then (k, v) :: rest
      else match array_index k, array_index k' with
           | Some i, Some j =>
               if i <? j then (k, v) :: props else (k', v') :: define k v rest
           | Some _, None => (k, v) :: props
           | None, _ => (k', v') :: define k v rest
           end
  end.

(** An open container: the elements read so far, most recent first, or the
    members read so far and the key awaiting its value. *)
Inductive Frame : Type :=
| InArr (items : list JSValue)
| InObj (props : list (string * JSValue)) (key : option string).

Inductive Expect : Type :=
| XValue            (* a value *)
| XValueOrClose     (* just after an opening bracket *)
| XKeyOrClose       (* just after an opening brace *)
| XKey              (* after a comma inside an object *)
| XColon
| XCommaOrClose
| XEnd (v : JSValue).

Definition PState : Type := (Expect * list Frame)%type.

(** A complete value goes to the innermost open container, or is the result. *)
Definition deliver (v : JSValue) (stack : list Frame) : option PState :=
  match stack with
  | [] => Some (XEnd v, [])
  | InArr items :: st => Some (XCommaOrClose, InArr (v :: items) :: st)
  | InObj props (Some k) :: st =>
      Some (XCommaOrClose, InObj (define k v props) None :: st)
  | InObj _ None :: _ => None
  end.

Definition open_value (t : Token) (stack : list Frame) : option PState :=
  match t with
  | TTrue => deliver (JBool true) stack
  | TFalse => deliver (JBool false) stack
  | TNull => deliver JNull stack
  | TNum n scale => deliver (JNum n scale) stack
  | TStr s => deliver (JStr s) stack
  | TLBracket => Some (XValueOrClose, InArr [] :: stack)
  | TLBrace => Some (XKeyOrClose, InObj [] None :: stack)
  | _ => None
  end.

Definition close (t : Token) (stack : list Frame) : option PState :=
  match t, stack with
  | TRBracket, InArr items :: st => deliver (JArr (rev items)) st
  | TRBrace, InObj props None :: st => deliver (JObj props) st
  | _, _ => None
  end.

Definition key (t : Token) (stack : list Frame) : option PState :=
  match t, stack with
  | TStr k, InObj props None :: st => Some (XColon, InObj props (Some k) :: st)
  | _, _ => None
  end.

Definition parse_step (st : PState) (t : Token) : option PState :=
  let (x, stack) := st in
  match x with
  | XValue => open_value t stack
  | XValueOrClose =>
      match t with
      | TRBracket => close t stack
      | _ => open_value t stack
      end
  | XKeyOrClose =>
      match t with
      | TRBrace => close t stack
      | _ => key t stack
      end
  | XKey => key t stack
  | XColon =>
      match t with
      | TColon => Some (XValue, stack)
      | _ => None
      end
  | XCommaOrClose =>
      match t, stack with
      | TComma, InArr _ :: _ => Some (XValue, stack)
      | TComma, InObj _ _ :: _ => Some (XKey, stack)
      | _, _ => close t stack
      end
  | XEnd _ => None
  end.

Fixpoint parse_tokens (st : PState) (ts : list Token) : option JSValue :=
  match ts with
  | [] => match st with
          | (XEnd v, _) => Some v
          | _ => None
          end
  | t :: ts' =>
      match parse_step st t with
      | Some st' => parse_tokens st' ts'
      | None => None
      end
  end.

(** [JSON.parse(text)]: [None] stands for the SyntaxError it throws. *)
Definition parse (s : string) : option JSValue :=
  match lex s Idle [] with
  | Some ts => parse_tokens (XValue, []) ts
  | None => None
  end.

End JSON.

(** ** The world the server runs in *)

(** How a call of [ai.models.generateContent] settles. *)
Inductive Outcome : Type :=
| Resolve (resp : JSValue)
| Reject (err : JSValue).

(** The ModelClient is an opaque collaborator: [client i params] is how its
    invocation number [i] (counted from 0 over the life of the process)
    settles when called with [params]. *)
Definition ModelClient : Type := nat -> JSValue -> Outcome.

(** A persisted assessment record: the paths of [AnalysisSchema], the
    identifier and the two timestamps (milliseconds since the epoch) that
    [{ timestamps: true }] adds. *)
Record Doc : Type := {
  _id : string;
  imageName : JSValue;
  result : JSValue;
  notes : JSValue;
  referToDerm : JSValue;
  createdAt : Z;
  updatedAt : Z
}.

(** The record store: its documents, and the message of the error every
    operation rejects with while the store is failing. *)
Record Store : Type := {
  docs : list Doc;
  fault : option string
}.

Inductive Event : Type :=
| Invoke (params : JSValue)          (* ai.models.generateContent(params) *)
| Sleep (ms : Z)                     (* setTimeout(r, ms), awaited *)
| ConsoleLog (args : list JSValue)
| ConsoleError (args : list JSValue).

Record World : Type := {
  calls : nat;               (* ModelClient invocations made so far *)
  events : list Event;       (* what happened, oldest first *)
  db : Store
}.

(** ** Asynchronous code that may throw *)

Inductive Completion (A : Type) : Type :=
| Normal (a : A)
| Thrown (err : JSValue)
| Unfinished.                (* the loop bound of the model ran out *)

Arguments Normal {A} a.
Arguments Thrown {A} err.
Arguments Unfinished {A}.

Definition M (A : Type) : Type := World -> Completion A * World.

Definition ret {A} (a : A) : M A := fun w => (Normal a, w).

Definition throw {A} (err : JSValue) : M A := fun w => (Thrown err, w).

Definition bind {A B} (m : M A) (k : A -> M B) : M B :=
  fun w =>
    match m w with
    | (Normal a, w') => k a w'
    | (Thrown err, w') => (Thrown err, w')
    | (Unfinished, w') => (Unfinished, w')
    end.

(** [try { m } catch (err) { h err }]. *)
Definition try_catch {A} (m : M A) (h : JSValue -> M A) : M A :=
  fun w =>
    match m w with
    | (Thrown err, w') => h err w'
    | r => r
    end.

Notation "x <- m ;; k" := (bind m (fun x => k))
  (at level 61, m at next level, right associativity).
Notation "m ;; k" := (bind m (fun _ => k))
  (at level 61, right associativity).

Definition emit (e : Event) : M unit :=
  fun w => (Normal tt,
            {| calls := calls w; events := events w ++ [e]; db := db w |}).

Definition console_log (args : list JSValue) : M unit := emit (ConsoleLog args).
Definition console_error (args : list JSValue) : M unit := emit (ConsoleError args).

(** [await new Promise(r => setTimeout(r, ms))]. *)
Definition sleep (ms : Z) : M unit := emit (Sleep ms).

(** [new Error(message)], and the TypeError the engine throws with its own
    message. *)
Definition Error (message : string) : JSValue := JError "Error" message.
Definition TypeError (message : string) : JSValue := JError "TypeError" message.

(** A computation that settles at once and leaves the world alone. *)
Definition settle {A} (c : Completion A) : M A := fun w => (c, w).

(** [v.k]: reading a property of [null] or [undefined] throws a TypeError. *)
Definition member (v : JSValue) (k : string) : M JSValue :=
  if JS.nullish v
  then throw (TypeError ("Cannot read properties of "
                         ++ match v with JNull => "null" | _ => "undefined" end
                         ++ " (reading '" ++ k ++ "')"))
  else ret (JS.get v k).

(** [JSON.stringify(v)] as a JavaScript value. *)
Definition JSON_stringify (v : JSValue) : JSValue :=
  match JSON.stringify v with
  | Some s => JStr s
  | None => JUndefined
  end.

(** ** generateWithRetry *)

Section Server.

Variable ai : ModelClient.

(** [await ai.models.generateContent(params)]. *)
Definition generateContent (params : JSValue) : M JSValue :=
  fun w =>
    let w' := {| calls := S (calls w);
                 events := events w ++ [Invoke params];
                 db := db w |} in
    match ai (calls w) params with
    | Resolve resp => (Normal resp, w')
    | Reject err => (Thrown err, w')
    end.

(** How one turn of the [while] loop ends when it does not throw. *)
Inductive Turn : Type :=
| Return (resp : JSValue)
| Continue (attempt : Z).

(** The inner [try]/[catch] around the log line: [JSON.stringify(resp)] is
    [undefined] for a value without JSON text, and [.slice] then throws. *)
Definition log_response (resp : JSValue) : M unit :=
  match JSON.stringify resp with
  | Some s => console_log [JStr "Gemini response (trim):"; JStr (JS.slice0 2000 s)]
  | None => console_log [JStr "Gemini response received"]
  end.

(** The message of the TypeError raised when ToString fails. *)
Definition no_primitive : string := "Cannot convert object to primitive value".

(** [String(v)]. *)
Definition String_ (v : JSValue) : Completion JSValue :=
  match JS.ToString v with
  | Some s => Normal (JStr s)
  | None => Thrown (TypeError no_primitive)
  end.

(** [err?.toString?.()]: [undefined] when [err] or its [toString] is null or
    undefined; a TypeError when [toString] is there and cannot be called,
    which is so of every [toString] that a plain object has of its own;
    else what the builtin method of numbers, strings, arrays, plain objects
    and errors answers. *)
Definition optional_toString (err : JSValue) : Completion JSValue :=
  match err with
  | JUndefined | JNull => Normal JUndefined
  | JObj props =>
      match JS.lookup "toString" props with
      | Some f =>
          if JS.nullish f then Normal JUndefined
          else Thrown (TypeError "err?.toString is not a function")
      | None => Normal (JStr "[object Object]")
      end
  | _ => String_ err
  end.

(** [err?.message || err?.toString?.() || String(err)]. *)
Definition error_message (err : JSValue) : Completion JSValue :=
  let message := JS.get err "message" in
  if JS.truthy message then Normal message
  else match optional_toString err with
       | Normal text => if JS.truthy text then Normal text else String_ err
       | thrown => thrown
       end.

Section Retry.

Variables (params : JSValue) (retries initialDelay : Z).

Fixpoint retry_loop (fuel : nat) (attempt : Z) : M JSValue :=
  match fuel with
  | O => fun w => (Unfinished, w)
  | S fuel' =>
      if attempt <? retries then
        turn <- try_catch
                  (resp <- generateContent params ;;
                   log_response resp ;;
                   ret (Return resp))
                  (fun err =>
                     let attempt := attempt + 1 in
                     msg <- settle (error_message err) ;;
                     console_error
                       [JStr ("Gemini call failed (attempt "
                              ++ JS.Number_toString attempt 0 ++ "/"
                              ++ JS.Number_toString retries 0 ++ "):");
                        msg] ;;
                     if attempt >=? retries then throw err
                     else
                       let delay := initialDelay * 2 ^ (attempt - 1) in
                       sleep delay ;;
                       ret (Continue attempt)) ;;
        match turn with
        | Return resp => ret resp
        | Continue attempt' => retry_loop fuel' attempt'
        end
      else ret JUndefined
  end.

(** [let attempt = 0; while (attempt < retries) { ... }]: every turn that
    continues has raised [attempt], so [retries] turns and the final test are
    all the loop can take. *)
Definition generateWithRetry : M JSValue :=
  retry_loop (S (Z.to_nat retries)) 0.

End Retry.

Definition default_retries : Z := 3.
Definition default_initialDelay : Z := 1000.

(** ** Requests and responses *)

(** The file multer keeps in memory for the form field "image". *)
Record Upload : Type := {
  mimetype : string;
  buffer : list byte
}.

Record Request : Type := {
  body : JSValue;            (* req.body, as express.json() left it *)
  file : option Upload       (* req.file *)
}.

(** What [res.json] is given: plain data, or the success object of the
    listing endpoint, whose [analyses] are store documents. *)
Inductive Body : Type :=
| Json (v : JSValue)
| SuccessAnalyses (analyses : list Doc).   (* { success: true, analyses } *)

Record Response : Type := {
  status : Z;
  json : Body
}.

(** [res.status(code).json(v)] and [res.json(v)]. *)
Definition respond (code : Z) (v : JSValue) : Response :=
  {| status := code; json := Json v |}.
Definition respond_ok (v : JSValue) : Response := respond 200 v.

(** [buffer.toString("base64")]. *)
Definition base64_char (n : N) : ascii :=
  (if n <? 26 then ascii_of_N (65 + n)
   else if n <? 52 then ascii_of_N (71 + n)
   else if n <? 62 then ascii_of_N (n - 4)
   else if n =? 62 then "+"%char
   else "/"%char)%N.

Fixpoint base64 (bs : list byte) : string :=
  match bs with
  | [] => EmptyString
  | [a] =>
      let x := Byte.to_N a in
      JS.text [base64_char (x / 4); base64_char ((x mod 4) * 16);
               "="%char; "="%char]
  | [a; b] =>
      let x := Byte.to_N a in
      let y := Byte.to_N b in
      JS.text [base64_char (x / 4); base64_char ((x mod 4) * 16 + y / 16);
               base64_char ((y mod 16) * 4); "="%char]
  | a :: b :: c :: rest =>
      let x := Byte.to_N a in
      let y := Byte.to_N b in
      let z := Byte.to_N c in
      JS.text [base64_char (x / 4); base64_char ((x mod 4) * 16 + y / 16);
               base64_char ((y mod 16) * 4 + z / 64); base64_char (z mod 64)]
      ++ base64 rest
  end%N.

(** ** POST /api/assistant *)

Definition systemPrompt : string :=
  "You are a helpful, accurate, and cautious dermatology assistant. Provide clear, non-prescriptive information. If the user requests medical advice, include a disclaimer to consult a dermatologist.".

Definition mock : string :=
  "I'm temporarily unable to reach the AI model. Here are some general skin care tips: keep skin clean, avoid picking lesions, use gentle sunscreen, and consult a dermatologist for persistent issues.".

Definition assistant (req : Request) : M Response :=
  try_catch
    (let prompt := JS.get (JS.or_else (body req) (JObj [])) "prompt" in
     if negb (JS.truthy prompt) then
       ret (respond 400 (JObj [("success", JBool false);
                               ("error", JStr "Missing prompt")]))
     else
       let contents :=
         JArr [JObj [("text", JStr systemPrompt)]; JObj [("text", prompt)]] in
       try_catch
         (response <- generateWithRetry
                        (JObj [("model", JStr "gemini-2.5-flash");
                               ("contents", contents)])
                        default_retries default_initialDelay ;;
          let text := JS.coalesce (JS.get response "text")
                                  (JSON_stringify response) in
          ret (respond_ok (JObj [("success", JBool true); ("text", text)])))
         (fun err =>
            console_error [JStr "Assistant final error:";
                           JS.or_else (JS.get err "message") err] ;;
            ret (respond 503 (JObj [("success", JBool false);
                                    ("error", JStr "model unavailable");
                                    ("text", JStr mock)]))))
    (fun err =>
       console_error [JStr "Assistant error:"; err] ;;
       message <- member err "message" ;;
       ret (respond 500 (JObj [("success", JBool false);
                               ("error", JS.or_else message
                                           (JStr "assistant error"))]))).

(** ** POST /api/analyze-image *)

(** The literal below writes ['] where the prompt has a double quote. *)
Definition with_dquotes (s : string) : string :=
  JS.text (map (fun c => if Ascii.eqb c "'"%char then JSON.dquote else c)
               (JS.chars s)).

Definition userPrompt : string := with_dquotes "
You are an expert dermatology assistant. Analyze the provided skin photo and return ONLY a single JSON object (no extra text).
JSON keys:
- diagnosis: short label (e.g. 'acne', 'eczema', 'hyperpigmentation', 'normal', 'other')
- differential: array of possible alternate diagnoses (strings)
- confidence: number 0-100
- severity: 'low'|'medium'|'high'
- treatment_recommendations: array of short recommendation strings (non-prescriptive; include topical suggestions, lifestyle tips)
- refer_to_dermatologist: boolean
- notes: any short caveats (e.g. 'image poor quality')
- disclaimer: short text: 'Not a medical diagnosis; consult a dermatologist.'

Provide numeric or short textual values only. No markdown, no extra commentary, strictly JSON.
".

Definition fallback : JSValue :=
  JObj [("diagnosis", JStr "other");
        ("differential", JArr [JStr "acne"; JStr "contact_dermatitis"]);
        ("confidence", JInt 45);
        ("severity", JStr "low");
        ("treatment_recommendations",
         JArr [JStr "Keep area clean"; JStr "Use gentle cleanser";
               JStr "Apply non-comedogenic moisturizer"; JStr "Avoid irritants"]);
        ("refer_to_dermatologist", JBool false);
        ("notes", JStr "Model unavailable; returning conservative suggestions.");
        ("disclaimer", JStr "Not a medical diagnosis; consult a dermatologist.")].

(** [try { parsed = JSON.parse(rawText); } catch (err) { parsed = { rawText }; }];
    [JSON.parse] first converts its argument to a string, and throws when it
    cannot. *)
Definition parse_or_wrap (rawText : JSValue) : JSValue :=
  match JS.ToString rawText with
  | Some text =>
      match JSON.parse text with
      | Some parsed => parsed
      | None => JObj [("rawText", rawText)]
      end
  | None => JObj [("rawText", rawText)]
  end.

(** The handler of POST /api/analyze-image.  The route runs it after the
    middleware [upload.single('image')] of line 227: the handler sees the
    requests that the middleware passes on, with [req.file] set when a file
    came in the field [image]; an upload that the middleware refuses is
    answered without the handler. *)
Definition analyze_image (req : Request) : M Response :=
  try_catch
    (match file req with
     | None => ret (respond 400 (JObj [("error", JStr "No image uploaded")]))
     | Some f =>
         let mimeType := JS.or_else (JStr (mimetype f)) (JStr "image/jpeg") in
         let base64 := base64 (buffer f) in
         let contents :=
           JArr [JObj [("inlineData", JObj [("mimeType", mimeType);
                                            ("data", JStr base64)])];
                 JObj [("text", JStr userPrompt)]] in
         try_catch
           (response <- generateWithRetry
                          (JObj [("model", JStr "gemini-2.5-flash");
                                 ("contents", contents)])
                          default_retries default_initialDelay ;;
            let rawText := JS.coalesce (JS.get response "text")
                                       (JSON_stringify response) in
            let parsed := parse_or_wrap rawText in
            ret (respond_ok (JObj [("success", JBool true); ("result", parsed)])))
           (fun err =>
              console_error [JStr "Analyze final error:";
                             JS.or_else (JS.get err "message") err] ;;
              ret (respond 503 (JObj [("success", JBool false);
                                      ("error", JStr "model unavailable");
                                      ("result", fallback)])))
     end)
    (fun err =>
       console_error [JStr "Analyze error:"; err] ;;
       message <- member err "message" ;;
       ret (respond 500 (JObj [("error", JS.or_else message
                                           (JStr "server error"))]))).

End Server.

(** ** models/Analysis.js *)

(** The schema is data; [has_type], [path_ok] and [validate] give its two
    options the meaning they have for the store: a path of type [Mixed] is
    kept as it is, and a [required] path must be neither null nor
    undefined. *)

Inductive SchemaType : Type := SString | SMixed | SBoolean.

Record SchemaPath : Type := {
  path_type : SchemaType;
  required : bool;
  default : option JSValue
}.

Definition AnalysisSchema : list (string * SchemaPath) :=
  [("imageName", {| path_type := SString; required := false; default := None |});
   ("result", {| path_type := SMixed; required := true; default := None |});
   ("notes", {| path_type := SString; required := false; default := None |});
   ("referToDerm",
    {| path_type := SBoolean; required := false; default := Some (JBool false) |})].

Definition timestamps : bool := true.

(** The value a document holds at a schema path. *)
Definition path_value (d : Doc) (path : string) : JSValue :=
  if String.eqb path "imageName" then imageName d
  else if String.eqb path "result" then result d
  else if String.eqb path "notes" then notes d
  else if String.eqb path "referToDerm" then referToDerm d
  else JUndefined.

(** What a path of each type holds once a document is built: [Mixed] takes
    any value as it is; the other types hold a value of their type or none. *)
Definition has_type (t : SchemaType) (v : JSValue) : bool :=
  match t, v with
  | SMixed, _ => true
  | _, (JUndefined | JNull) => true
  | SString, JStr _ => true
  | SBoolean, JBool _ => true
  | _, _ => false
  end.

(** The [required] validator rejects [null] and [undefined]. *)
Definition path_ok (p : SchemaPath) (v : JSValue) : bool :=
  has_type (path_type p) v && (negb (required p) || negb (JS.nullish v)).

(** Validation of a document before it is stored. *)
Definition validate (schema : list (string * SchemaPath)) (d : Doc) : bool :=
  forallb (fun kp => path_ok (snd kp) (path_value d (fst kp))) schema.

(** ** GET /api/analyses *)

(** A store query as the chained builder leaves it: [find()] selects every
    document, [sort({ key: direction })] orders them by a key, descending
    for a negative direction, and [limit(n)] keeps the first [n]. *)
Record Query : Type := {
  order : option ((Doc -> Z) * Z);   (* sort key and direction, 1 or -1 *)
  bound : option nat                 (* limit *)
}.

Definition find : Query := {| order := None; bound := None |}.

Definition sort (key : Doc -> Z) (direction : Z) (q : Query) : Query :=
  {| order := Some (key, direction); bound := bound q |}.

Definition limit (n : nat) (q : Query) : Query :=
  {| order := order q; bound := Some n |}.

(** [before key direction a b]: [a] may stand before [b] in the result. *)
Definition before (key : Doc -> Z) (direction : Z) (a b : Doc) : bool :=
  if direction <? 0 then key b <=? key a else key a <=? key b.

Fixpoint insert_sorted (le : Doc -> Doc -> bool) (d : Doc) (l : list Doc) : list Doc :=
  match l with
  | [] => [d]
  | x :: rest => if le d x then d :: l else x :: insert_sorted le d rest
  end.

Definition sorted_by (le : Doc -> Doc -> bool) (l : list Doc) : list Doc :=
  fold_right (insert_sorted le) [] l.

(** The documents a query selects from a collection: all of them, ordered,
    then cut to the limit. *)
Definition select (q : Query) (collection : list Doc) : list Doc :=
  let ordered :=
    match order q with
    | Some (key, direction) => sorted_by (before key direction) collection
    | None => collection
    end in
  match bound q with
  | Some n => firstn n ordered
  | None => ordered
  end.

(** [await query]: the store answers, or rejects with its error. *)
Definition exec (q : Query) : M (list Doc) :=
  fun w =>
    match fault (db w) with
    | Some message => (Thrown (Error message), w)
    | None => (Normal (select q (docs (db w))), w)
    end.

Definition list_analyses (req : Request) : M Response :=
  try_catch
    (list <- exec (limit 100 (sort createdAt (-1) find)) ;;
     ret {| status := 200; json := SuccessAnalyses list |})
    (fun err =>
       console_error [JStr "List analyses error:"; err] ;;
       message <- member err "message" ;;
       ret (respond 500 (JObj [("success", JBool false); ("error", message)]))).

(** ** GET and DELETE /api/analyses/:id *)

(** What [res.json] is given by the endpoint that returns one record: plain
    data, or [{ success: true, analysis }] around a store document. *)
Inductive RecordBody : Type :=
| Plain (v : JSValue)
| SuccessAnalysis (analysis : Doc).

Record RecordResponse : Type := {
  record_status : Z;
  record_json : RecordBody
}.

Section ById.

(** The store casts the identifier of a request before it looks a document
    up.  Which strings it can cast, to which stored identifier, and the
    message of the error it raises for the others are the store's own:
    [cast_id id] is the identifier [id] is cast to, if any, and
    [cast_error id] the message otherwise. *)
Variable cast_id : string -> option string.
Variable cast_error : string -> string.

Definition has_id (i : string) (d : Doc) : bool := String.eqb (_id d) i.

Fixpoint remove_first (i : string) (l : list Doc) : list Doc :=
  match l with
  | [] => []
  | d :: rest => if has_id i d then rest else d :: remove_first i rest
  end.

(** [await Analysis.findById(id)]: the document with that identifier, or
    [null]. *)
Definition findById (id : string) : M (option Doc) :=
  fun w =>
    match cast_id id with
    | None => (Thrown (Error (cast_error id)), w)
    | Some i =>
        match fault (db w) with
        | Some message => (Thrown (Error message), w)
        | None => (Normal (List.find (has_id i) (docs (db w))), w)
        end
    end.

(** [await Analysis.findByIdAndDelete(id)]: removes the document with that
    identifier and answers it, or answers [null] and removes nothing. *)
Definition findByIdAndDelete (id : string) : M (option Doc) :=
  fun w =>
    match cast_id id with
    | None => (Thrown (Error (cast_error id)), w)
    | Some i =>
        match fault (db w) with
        | Some message => (Thrown (Error message), w)
        | None =>
            (Normal (List.find (has_id i) (docs (db w))),
             {| calls := calls w; events := events w;
                db := {| docs := remove_first i (docs (db w));
                         fault := None |} |})
        end
    end.

(** [id] is [req.params.id]. *)
Definition get_analysis (id : string) : M RecordResponse :=
  try_catch
    (item <- findById id ;;
     match item with
     | None =>
         ret {| record_status := 404;
                record_json := Plain (JObj [("success", JBool false);
                                            ("error", JStr "Not found")]) |}
     | Some d => ret {| record_status := 200; record_json := SuccessAnalysis d |}
     end)
    (fun err =>
       console_error [JStr "Get analysis error:"; err] ;;
       message <- member err "message" ;;
       ret {| record_status := 500;
              record_json := Plain (JObj [("success", JBool false);
                                          ("error", message)]) |}).

Definition delete_analysis (id : string) : M Response :=
  try_catch
    (removed <- findByIdAndDelete id ;;
     match removed with
     | None => ret (respond 404 (JObj [("success", JBool false);
                                       ("error", JStr "Not found")]))
     | Some _ => ret (respond_ok (JObj [("success", JBool true)]))
     end)
    (fun err =>
       console_error [JStr "Delete analysis error:"; err] ;;
       message <- member err "message" ;;
       ret (respond 500 (JObj [("success", JBool false); ("error", message)]))).

End ById.

(** * Notions used to state the properties *)

(** ** Reading a run *)

(** The world after [k] more ModelClient invocations and the events [evs]. *)
Definition advance (w : World) (k : nat) (evs : list Event) : World :=
  {| calls := (k + calls w)%nat; events := events w ++ evs; db := db w |}.

Definition is_invoke (e : Event) : bool :=
  match e with Invoke _ => true | _ => false end.

Definition is_timed (e : Event) : bool :=
  match e with Invoke _ | Sleep _ => true | _ => false end.

(** How many ModelClient invocations a stretch of events holds. *)
Definition invocations (evs : list Event) : nat :=
  List.length (filter is_invoke evs).

(** The invocations and the delays of a stretch of events, in order. *)
Definition timeline (evs : list Event) : list Event := filter is_timed evs.

(** The delays alone. *)
Definition delays (evs : list Event) : list Z :=
  flat_map (fun e => match e with Sleep ms => [ms] | _ => [] end) evs.

Section RunNotions.

Variable ai : ModelClient.
Variables (params : JSValue) (retries initialDelay : Z).

(** The console line of a successful call. *)
Definition response_line (resp : JSValue) : Event :=
  match JSON.stringify resp with
  | Some s => ConsoleLog [JStr "Gemini response (trim):"; JStr (JS.slice0 2000 s)]
  | None => ConsoleLog [JStr "Gemini response received"]
  end.

(** The console line of the failed attempt number [attempt], given the
    message [msg] computed for its error. *)
Definition failure_line (attempt : Z) (msg : JSValue) : Event :=
  ConsoleError
    [JStr ("Gemini call failed (attempt " ++ JS.Number_toString attempt 0 ++ "/"
           ++ JS.Number_toString retries 0 ++ "):");
     msg].

(** The next [k] invocations made from call number [c] on all fail. *)
Definition fails_through (c k : nat) : Prop :=
  forall i, (i < k)%nat -> exists err, ai (c + i)%nat params = Reject err.

(** The next [k] invocations made from call number [c] on all fail, each
    with an error for which line 49 computes a message: an error with a
    truthy [message], as every Error with a message is, or else a value that
    converts to a string. *)
Definition fails_cleanly (c k : nat) : Prop :=
  forall i, (i < k)%nat ->
    exists err msg,
      ai (c + i)%nat params = Reject err /\ error_message err = Normal msg.


(** [k] failed attempts numbered [first], [first + 1], ..., each followed by
    its delay, and then one more attempt with nothing after it. *)
Definition backoff_timeline (first k : nat) : list Event :=
  (flat_map (fun i => [Invoke params;
                       Sleep (initialDelay * 2 ^ (Z.of_nat i - 1))])
            (seq first k)
   ++ [Invoke params])%list.

End RunNotions.

(** ** The endpoints *)

(** The generation request POST /api/assistant builds for a prompt. *)
Definition assistant_request (prompt : JSValue) : JSValue :=
  JObj [("model", JStr "gemini-2.5-flash");
        ("contents",
         JArr [JObj [("text", JStr systemPrompt)]; JObj [("text", prompt)]])].

(** The generation request POST /api/analyze-image builds for an upload. *)
Definition image_request (f : Upload) : JSValue :=
  JObj [("model", JStr "gemini-2.5-flash");
        ("contents",
         JArr [JObj [("inlineData",
                      JObj [("mimeType",
                             JS.or_else (JStr (mimetype f)) (JStr "image/jpeg"));
                            ("data", JStr (base64 (buffer f)))])];
               JObj [("text", JStr userPrompt)]])].

(** [response?.text ?? JSON.stringify(response)]. *)
Definition text_of (response : JSValue) : JSValue :=
  JS.coalesce (JS.get response "text") (JSON_stringify response).

(** The body has no prompt field, or an empty one. *)
Definition prompt_missing (b : JSValue) : Prop :=
  JS.get b "prompt" = JUndefined \/ JS.get b "prompt" = JStr EmptyString.

(** A result that is an object, among them the wrapper
    [{ rawText: string }]. *)
Definition object_or_wrapper (v : JSValue) : Prop :=
  (exists props, v = JObj props)
  \/ (exists s, v = JObj [("rawText", JStr s)]).

(** Most recent first: no record is older than one that comes after it. *)
Definition newest_first (l : list Doc) : Prop :=
  StronglySorted (fun a b => createdAt b <= createdAt a) l.

(** ** Sample worlds, clients and requests *)

Definition idle : World :=
  {| calls := 0; events := []; db := {| docs := []; fault := None |} |}.

(** A ModelClient that rejects every call. *)
Definition overloaded : ModelClient :=
  fun _ _ => Reject (Error "The model is overloaded").


(** A ModelClient that rejects every call with the plain object
    [{ toString: 5 }]. *)
Definition opaque_failure : ModelClient :=
  fun _ _ => Reject (JObj [("toString", JInt 5)]).

(** A ModelClient that answers [resp] at once. *)
Definition answers (resp : JSValue) : ModelClient := fun _ _ => Resolve resp.

Definition ask : JSValue :=
  JObj [("model", JStr "gemini-2.5-flash");
        ("contents", JArr [JObj [("text", JStr "Is this a rash?")]])].

Definition png : Upload :=
  {| mimetype := "image/png"; buffer := [x89; x50; x4e; x47] |}.

Definition photo : Request := {| body := JUndefined; file := Some png |}.

Definition question : Request :=
  {| body := JObj [("prompt", JStr "Is this a rash?")]; file := None |}.

(** The text [{"diagnosis":"acne","confidence":80}]. *)
Definition acne_text : string :=
  with_dquotes "{'diagnosis':'acne','confidence':80}".

(** A response holding only an empty list of candidates. *)
Definition no_candidates : list (string * JSValue) := [("candidates", JArr [])].

(** A document with nothing but a result. *)
Definition bare_record (v : JSValue) : Doc :=
  {| _id := "65f0c0ffee"; imageName := JUndefined; result := v;
     notes := JUndefined; referToDerm := JBool false;
     createdAt := 0; updatedAt := 0 |}.

(** Three stored records, created at times 10, 30 and 20. *)
Definition shelf : list Doc :=
  [{| _id := "a"; imageName := JStr "cheek.png"; result := JObj [];
      notes := JUndefined; referToDerm := JBool false;
      createdAt := 10; updatedAt := 10 |};
   {| _id := "b"; imageName := JUndefined; result := JInt 1;
      notes := JUndefined; referToDerm := JBool true;
      createdAt := 30; updatedAt := 31 |};
   {| _id := "c"; imageName := JUndefined; result := JStr "dry skin";
      notes := JStr "left arm"; referToDerm := JBool false;
      createdAt := 20; updatedAt := 20 |}].

Definition stocked : World :=
  {| calls := 0; events := []; db := {| docs := shelf; fault := None |} |}.

Definition unreachable : World :=
  {| calls := 0; events := [];
     db := {| docs := shelf; fault := Some "buffering timed out" |} |}.


(** ** Notions for the log and the waiting time of a run *)

(** The error call number [i] is rejected with. *)
Definition rejection (ai : ModelClient) (params : JSValue) (i : nat) : JSValue :=
  match ai i params with
  | Reject err => err
  | Resolve _ => JUndefined
  end.

(** The message line 49 computes for the error of call number [i]. *)
Definition logged (ai : ModelClient) (params : JSValue) (i : nat) : JSValue :=
  match error_message (rejection ai params i) with
  | Normal msg => msg
  | _ => JUndefined
  end.

(** What failed attempt number [i] leaves in the log when another attempt
    follows; the run started at call number [c]. *)
Definition failed_attempt (ai : ModelClient) (params : JSValue)
    (retries initialDelay : Z) (c i : nat) : list Event :=
  [Invoke params;
   failure_line retries (Z.of_nat i) (logged ai params (c + i - 1));
   Sleep (initialDelay * 2 ^ (Z.of_nat i - 1))].

(** The delay a timer is set to when asked for [ms]: the platform sets it to
    1 ms when asked for less than 1 ms or for more than 2^31 - 1 ms. *)
Definition timer_delay (ms : Z) : Z :=
  if (ms <? 1) || (2147483647 <? ms) then 1 else ms.

(** The sum of the delays the timers of a stretch of events are set to, in
    milliseconds. *)
Definition waiting (evs : list Event) : Z :=
  fold_right Z.add 0 (map timer_delay (delays evs)).



(** Identifiers that are cast to themselves, and no others. *)
Definition stored_ids (id : string) : option string :=
  if existsb (String.eqb id) ["a"; "b"; "c"; "d"] then Some id else None.

Definition not_an_id (id : string) : string :=
  "Cast to ObjectId failed for value " ++ id.

(** The world once the first record with identifier [i] is gone. *)
Definition without (i : string) (w : World) : World :=
  {| calls := calls w; events := events w;
     db := {| docs := remove_first i (docs (db w)); fault := None |} |}.

(** No two records of the collection share an identifier. *)
Definition unique_ids (w : World) : Prop := NoDup (map _id (docs (db w))).

Definition not_found : JSValue :=
  JObj [("success", JBool false); ("error", JStr "Not found")].

(** The media type sent with an upload: its own, or image/jpeg when it
    names none. *)
Definition media_type (f : Upload) : string :=
  if String.eqb (mimetype f) EmptyString then "image/jpeg" else mimetype f.

(** A collection of 120 records, created at 120 different times. *)
Definition crowd : list Doc :=
  map (fun i => {| _id := JS.show_Z (Z.of_nat i); imageName := JUndefined;
                   result := JObj []; notes := JUndefined;
                   referToDerm := JBool false;
                   createdAt := (Z.of_nat i * 37) mod 120;
                   updatedAt := (Z.of_nat i * 37) mod 120 |})
      (seq 0 120).

Definition crowded : World :=
  {| calls := 0; events := []; db := {| docs := crowd; fault := None |} |}.

(** * Properties *)

(** ** The builtins on small inputs *)

Example parse_object :
  JSON.parse acne_text
  = Some (JObj [("diagnosis", JStr "acne"); ("confidence", JInt 80)]).
Proof. reflexivity. Qed.

Example parse_not_json : JSON.parse "hello" = None.
Proof. reflexivity. Qed.

Example parse_array :
  JSON.parse " [1, 2.50, -3e2, 1e-3, true, null, [], {}] "
  = Some (JArr [JInt 1; JNum 25 1; JInt (-300); JNum 1 3; JBool true; JNull;
                JArr []; JObj []]).
Proof. reflexivity. Qed.

Example parse_scalars :
  map JSON.parse ["42"; "-0.5E-2"; "true"; "null"; with_dquotes "'a\u0041\n'"]
  = [Some (JInt 42); Some (JNum (-5) 3); Some (JBool true); Some JNull;
     Some (JStr (String "a" (String "A" (String (ascii_of_N 10) EmptyString))))].
Proof. reflexivity. Qed.

Example parse_rejects :
  map JSON.parse
    ["01"; "1."; ".5"; "+1"; "1e"; "[1,]"; "{,}"; "[1 2]"; "1 2"; "tru";
     "undefined"; "NaN"; "'a'"; with_dquotes "{'a':1,}"; with_dquotes "'abc";
     with_dquotes "{a:1}"; "[}"; "[1]]"; EmptyString]
  = repeat None 19.
Proof. reflexivity. Qed.

Example parse_key_order :
  JSON.parse (with_dquotes "{'b':1,'10':2,'a':3,'2':4,'b':5}")
  = Some (JObj [("2", JInt 4); ("10", JInt 2); ("b", JInt 5); ("a", JInt 3)]).
Proof. reflexivity. Qed.

Example stringify_skips_undefined :
  JSON.stringify (JObj [("a", JUndefined); ("b", JArr [JUndefined; JNum 15 1]);
                        ("c", JStr "x")])
  = Some (with_dquotes "{'b':[null,1.5],'c':'x'}").
Proof. reflexivity. Qed.

Example number_strings :
  map (fun n => JS.Number_toString (fst n) (snd n))
      [(80, 0%nat); (-15, 3%nat); (1, 7%nat); (10 ^ 21, 0%nat); (12345, 2%nat)]
  = ["80"; "-0.015"; "1e-7"; "1e+21"; "123.45"].
Proof. reflexivity. Qed.

Example base64_padding :
  map base64 [[x4d; x61; x6e]; [x4d; x61]; [x4d]] = ["TWFu"; "TWE="; "TQ=="].
Proof. reflexivity. Qed.

(** ** Worlds and event lists *)

Lemma advance_zero w : advance w 0 [] = w.
Proof.
  destruct w; unfold advance; simpl. now rewrite app_nil_r.
Qed.

Lemma advance_advance w j evs k evs' :
  advance (advance w j evs) k evs' = advance w (j + k)%nat (evs ++ evs').
Proof.
  unfold advance; simpl. f_equal; [lia | now rewrite app_assoc].
Qed.

Lemma invocations_app evs evs' :
  invocations (evs ++ evs') = (invocations evs + invocations evs')%nat.
Proof.
  unfold invocations. now rewrite filter_app, length_app.
Qed.

Lemma timeline_app evs evs' :
  timeline (evs ++ evs') = (timeline evs ++ timeline evs')%list.
Proof.
  unfold timeline. apply filter_app.
Qed.

Lemma delays_app evs evs' :
  delays (evs ++ evs') = (delays evs ++ delays evs')%list.
Proof.
  unfold delays. apply flat_map_app.
Qed.

Lemma delays_timeline evs : delays (timeline evs) = delays evs.
Proof.
  unfold timeline, delays. induction evs as [|e evs IH]; [reflexivity|].
  destruct e; cbn; now rewrite ?IH.
Qed.

Lemma delays_backoff_timeline params b first k :
  delays (backoff_timeline params b first k)
  = map (fun i => b * 2 ^ (Z.of_nat i - 1)) (seq first k).
Proof.
  unfold backoff_timeline. rewrite delays_app; cbn. rewrite app_nil_r.
  revert first. induction k as [|k IH]; intros first; [reflexivity|].
  cbn. now rewrite IH.
Qed.

Lemma backoff_timeline_step params b first k :
  backoff_timeline params b first (S k)
  = Invoke params :: Sleep (b * 2 ^ (Z.of_nat first - 1))
      :: backoff_timeline params b (S first) k.
Proof. reflexivity. Qed.

(** ** Computing the message of an error *)

Lemma String_settles v :
  (exists msg, String_ v = Normal msg)
  \/ (exists t, String_ v = Thrown (TypeError t)).
Proof. unfold String_. destruct (JS.ToString v); eauto. Qed.

Lemma error_message_settles err :
  (exists msg, error_message err = Normal msg)
  \/ (exists t, error_message err = Thrown (TypeError t)).
Proof.
  unfold error_message.
  destruct (JS.truthy (JS.get err "message")); [eauto|].
  assert (Hopt : (exists text, optional_toString err = Normal text)
                 \/ (exists t, optional_toString err = Thrown (TypeError t))).
  { destruct err; cbn [optional_toString]; eauto using String_settles.
    destruct (JS.lookup "toString" props) as [f|]; [|eauto].
    destruct (JS.nullish f); eauto. }
  destruct Hopt as [[text ->] | [t ->]]; [|eauto].
  destruct (JS.truthy text); [eauto|apply String_settles].
Qed.

(** An error whose [message] is truthy is logged by that message. *)
Lemma error_message_of_message err :
  JS.truthy (JS.get err "message") = true ->
  error_message err = Normal (JS.get err "message").
Proof. unfold error_message. now intros ->. Qed.

(** ** One turn of the retry loop *)

Section RetryFacts.

Variable ai : ModelClient.
Variables (params : JSValue) (retries initialDelay : Z).

Local Abbreviation loop := (retry_loop ai params retries initialDelay).
Local Abbreviation failed := (failed_attempt ai params retries initialDelay).

Lemma fails_through_tail c k :
  fails_through ai params c (S k) -> fails_through ai params (S c) k.
Proof.
  intros H i Hi. destruct (H (S i)) as [err He]; [lia|].
  exists err. now replace (S c + i)%nat with (c + S i)%nat by lia.
Qed.

Lemma fails_through_head c k :
  fails_through ai params c (S k) -> exists err, ai c params = Reject err.
Proof.
  intros H. destruct (H 0%nat) as [err He]; [lia|].
  exists err. now rewrite Nat.add_0_r in He.
Qed.

Lemma fails_cleanly_tail c k :
  fails_cleanly ai params c (S k) -> fails_cleanly ai params (S c) k.
Proof.
  intros H i Hi. destruct (H (S i)) as (err & msg & He & Hm); [lia|].
  exists err, msg. now replace (S c + i)%nat with (c + S i)%nat by lia.
Qed.

Lemma fails_cleanly_head c k :
  fails_cleanly ai params c (S k) ->
  exists err msg, ai c params = Reject err /\ error_message err = Normal msg.
Proof.
  intros H. destruct (H 0%nat) as (err & msg & He & Hm); [lia|].
  exists err, msg. now rewrite Nat.add_0_r in He.
Qed.

Lemma fails_cleanly_fails c k :
  fails_cleanly ai params c k -> fails_through ai params c k.
Proof.
  intros H i Hi. destruct (H i Hi) as (err & _ & He & _). eauto.
Qed.

Lemma loop_exit fuel attempt w :
  retries <= attempt ->
  loop (S fuel) attempt w = (Normal JUndefined, w).
Proof.
  intros H. cbn [retry_loop].
  destruct (Z.ltb_spec attempt retries); [lia | reflexivity].
Qed.

Lemma loop_resolve fuel attempt w resp :
  attempt < retries ->
  ai (calls w) params = Resolve resp ->
  loop (S fuel) attempt w
  = (Normal resp, advance w 1 [Invoke params; response_line resp]).
Proof.
  intros Hlt Hai. cbn [retry_loop].
  destruct (Z.ltb_spec attempt retries); [|lia].
  unfold bind, try_catch, generateContent, log_response, response_line.
  rewrite Hai.
  destruct (JSON.stringify resp); cbn; unfold advance; cbn;
    now rewrite <- app_assoc.
Qed.

(** The message of the error cannot be computed: the TypeError leaves the
    [catch] block and the function, before anything is logged. *)
Lemma loop_reject_abort fuel attempt w err t :
  attempt < retries ->
  ai (calls w) params = Reject err ->
  error_message err = Thrown t ->
  loop (S fuel) attempt w = (Thrown t, advance w 1 [Invoke params]).
Proof.
  intros Hlt Hai Hmsg. cbn [retry_loop].
  destruct (Z.ltb_spec attempt retries); [|lia].
  unfold bind, try_catch, generateContent, settle.
  rewrite Hai, Hmsg. reflexivity.
Qed.

Lemma loop_reject_last fuel attempt w err msg :
  attempt < retries -> retries <= attempt + 1 ->
  ai (calls w) params = Reject err ->
  error_message err = Normal msg ->
  loop (S fuel) attempt w
  = (Thrown err,
     advance w 1 [Invoke params; failure_line retries (attempt + 1) msg]).
Proof.
  intros Hlt Hlast Hai Hmsg. cbn [retry_loop].
  destruct (Z.ltb_spec attempt retries); [|lia].
  unfold bind, try_catch, generateContent, settle.
  rewrite Hai, Hmsg. cbn [console_error emit].
  destruct (Z.geb_spec (attempt + 1) retries); [|lia].
  unfold throw, advance, failure_line; cbn [calls events db].
  now rewrite <- app_assoc.
Qed.

Lemma loop_reject_again fuel attempt w err msg :
  attempt + 1 < retries ->
  ai (calls w) params = Reject err ->
  error_message err = Normal msg ->
  loop (S fuel) attempt w
  = loop fuel (attempt + 1)
      (advance w 1 [Invoke params; failure_line retries (attempt + 1) msg;
                    Sleep (initialDelay * 2 ^ attempt)]).
Proof.
  intros Hlt Hai Hmsg. cbn [retry_loop].
  destruct (Z.ltb_spec attempt retries); [|lia].
  unfold bind, try_catch, generateContent, settle.
  rewrite Hai, Hmsg. cbn [console_error emit].
  destruct (Z.geb_spec (attempt + 1) retries); [lia|].
  unfold sleep, emit, ret, advance, failure_line; cbn [calls events db].
  replace (attempt + 1 - 1) with attempt by lia.
  now rewrite <- !app_assoc.
Qed.

(** ** Whole runs of the loop *)

Lemma logged_of c err msg :
  ai c params = Reject err -> error_message err = Normal msg ->
  logged ai params c = msg.
Proof. unfold logged, rejection. now intros -> ->. Qed.

Lemma failed_attempt_next c0 j w err msg :
  calls w = (c0 + j)%nat ->
  ai (calls w) params = Reject err ->
  error_message err = Normal msg ->
  failed c0 (S j)
  = [Invoke params; failure_line retries (Z.of_nat j + 1) msg;
     Sleep (initialDelay * 2 ^ Z.of_nat j)].
Proof.
  intros Hc Herr Hmsg. unfold failed_attempt.
  replace (c0 + S j - 1)%nat with (calls w) by lia.
  rewrite (logged_of _ _ _ Herr Hmsg).
  replace (Z.of_nat (S j) - 1) with (Z.of_nat j) by lia.
  now replace (Z.of_nat (S j)) with (Z.of_nat j + 1) by lia.
Qed.

(** [m] attempts fail, each with an error whose message can be computed, and
    more attempts are allowed: the loop goes on, having logged exactly the
    [m] failed attempts. *)
Lemma loop_clean_failures m : forall fuel j w c0,
  Z.of_nat j + Z.of_nat m < retries ->
  calls w = (c0 + j)%nat ->
  fails_cleanly ai params (calls w) m ->
  loop (m + fuel) (Z.of_nat j) w
  = loop fuel (Z.of_nat (j + m))
      (advance w m (flat_map (failed c0) (seq (S j) m))).
Proof.
  induction m as [|m IH]; intros fuel j w c0 Hn Hc Hfail.
  - cbn. now rewrite advance_zero, Nat.add_0_r.
  - destruct (fails_cleanly_head _ _ Hfail) as (err & msg & Herr & Hmsg).
    cbn [Nat.add].
    rewrite (loop_reject_again _ _ _ err msg) by (trivial; lia).
    replace (Z.of_nat j + 1) with (Z.of_nat (S j)) by lia.
    rewrite (IH fuel (S j) _ c0); try lia.
    + rewrite advance_advance. cbn [seq flat_map].
      rewrite (failed_attempt_next c0 j w err msg Hc Herr Hmsg).
      replace (Z.of_nat (S j)) with (Z.of_nat j + 1) by lia.
      now replace (S j + m)%nat with (j + S m)%nat by lia.
    + cbn. lia.
    + apply fails_cleanly_tail, Hfail.
Qed.

Lemma invocations_failed c0 l : invocations (flat_map (failed c0) l) = List.length l.
Proof.
  induction l as [|i l IH]; [reflexivity|].
  cbn [flat_map]. rewrite invocations_app, IH. reflexivity.
Qed.

Lemma timeline_failed c0 l :
  timeline (flat_map (failed c0) l)
  = flat_map (fun i => [Invoke params;
                        Sleep (initialDelay * 2 ^ (Z.of_nat i - 1))]) l.
Proof.
  induction l as [|i l IH]; [reflexivity|].
  cbn [flat_map]. rewrite timeline_app, IH. reflexivity.
Qed.

End RetryFacts.

(** ** generateWithRetry *)

(** How a run that is allowed [n >= 1] attempts goes: [k - 1] attempts fail
    and are logged, and attempt [k] ends the run, by succeeding, by being
    the [n]-th to fail, or by failing with an error whose message cannot be
    computed. *)
Lemma last_attempt_exists ai params (N : nat) : forall c,
  exists k,
    (1 <= k <= S N)%nat
    /\ fails_cleanly ai params c (k - 1)
    /\ ((exists resp, ai (c + (k - 1))%nat params = Resolve resp)
        \/ (k = S N
            /\ exists err msg, ai (c + (k - 1))%nat params = Reject err
                               /\ error_message err = Normal msg)
        \/ (exists err t, ai (c + (k - 1))%nat params = Reject err
                          /\ error_message err = Thrown (TypeError t))).
Proof.
  induction N as [|N IH]; intros c.
  - exists 1%nat. split; [lia|]. split; [intros i Hi; cbn in Hi; lia|].
    cbn [Nat.sub]. rewrite Nat.add_0_r.
    destruct (ai c params) as [resp|err] eqn:E; [eauto|].
    destruct (error_message_settles err) as [[msg Hm] | [t Ht]].
    + right. left. split; [reflexivity|]. eauto.
    + right. right. eauto.
  - destruct (ai c params) as [resp|err] eqn:E.
    + exists 1%nat. split; [lia|]. split; [intros i Hi; cbn in Hi; lia|].
      left. exists resp. cbn [Nat.sub]. now rewrite Nat.add_0_r.
    + destruct (error_message_settles err) as [[msg Hm] | [t Ht]].
      * destruct (IH (S c)) as (k & Hk & Hfail & Hend).
        exists (S k). split; [lia|].
        replace (S k - 1)%nat with (S (k - 1)) by lia.
        replace (c + S (k - 1))%nat with (S c + (k - 1))%nat by lia.
        split.
        -- intros [|i] Hi.
           ++ exists err, msg. now rewrite Nat.add_0_r.
           ++ destruct (Hfail i) as (e & m & He & Hm'); [lia|]. exists e, m.
              now replace (c + S i)%nat with (S c + i)%nat by lia.
        -- destruct Hend as [Hres | [[-> Hrej] | Habort]]; auto.
      * exists 1%nat. split; [lia|]. split; [intros i Hi; cbn in Hi; lia|].
        right. right. exists err, t. cbn [Nat.sub]. now rewrite Nat.add_0_r.
Qed.

(** After [m] logged failures, with attempts left, the run goes on from
    attempt [m]. *)
Lemma retry_after_failures ai params (n b : Z) w m :
  (m < Z.to_nat n)%nat ->
  fails_cleanly ai params (calls w) m ->
  generateWithRetry ai params n b w
  = retry_loop ai params n b (S (Z.to_nat n - m)) (Z.of_nat m)
      (advance w m
         (flat_map (failed_attempt ai params n b (calls w)) (seq 1 m))).
Proof.
  intros Hm Hfail. unfold generateWithRetry.
  replace (S (Z.to_nat n)) with (m + S (Z.to_nat n - m))%nat by lia.
  change 0 with (Z.of_nat 0).
  now rewrite (loop_clean_failures ai params n b m _ 0 w (calls w)) by (trivial; lia).
Qed.

(** The shape of every run that is allowed at least one attempt. *)
Lemma retry_run ai params (n b : Z) w :
  1 <= n ->
  exists k r last,
    (1 <= k <= Z.to_nat n)%nat
    /\ generateWithRetry ai params n b w
       = (r, advance w k
               (flat_map (failed_attempt ai params n b (calls w)) (seq 1 (k - 1))
                ++ Invoke params :: last))
    /\ fails_cleanly ai params (calls w) (k - 1)
    /\ ((exists resp,
           ai (calls w + (k - 1))%nat params = Resolve resp
           /\ r = Normal resp /\ last = [response_line resp])
        \/ (k = Z.to_nat n
            /\ exists err msg,
                 ai (calls w + (k - 1))%nat params = Reject err
                 /\ error_message err = Normal msg
                 /\ r = Thrown err /\ last = [failure_line n n msg])
        \/ (exists err t,
              ai (calls w + (k - 1))%nat params = Reject err
              /\ error_message err = Thrown (TypeError t)
              /\ r = Thrown (TypeError t) /\ last = [])).
Proof.
  intros Hn.
  destruct (Z.to_nat n) as [|N] eqn:HN; [lia|].
  destruct (last_attempt_exists ai params N (calls w))
    as (k & Hk & Hfail & Hend).
  destruct k as [|m]; [lia|].
  replace (S m - 1)%nat with m in * by lia.
  assert (Hgo := retry_after_failures ai params n b w m ltac:(lia) Hfail).
  rewrite HN in Hgo. rewrite Hgo. clear Hgo.
  set (w' := advance w m _).
  assert (Hc : (calls w + m)%nat = calls w') by (unfold w'; cbn; lia).
  rewrite Hc in Hend.
  destruct Hend as [[resp Hres] | [[Hlast (err & msg & Hrej & Hmsg)]
                                  | (err & t & Hrej & Hmsg)]].
  - exists (S m), (Normal resp), [response_line resp].
    replace (S m - 1)%nat with m by lia. rewrite Hc.
    split; [lia|]. split; [|split; [exact Hfail|]].
    + rewrite (loop_resolve _ _ _ _ _ _ _ resp) by (trivial; lia).
      unfold w'. rewrite advance_advance.
      now replace (m + 1)%nat with (S m) by lia.
    + left. eauto.
  - injection Hlast as ->.
    exists (S N), (Thrown err), [failure_line n n msg].
    replace (S N - 1)%nat with N by lia. rewrite Hc.
    split; [lia|]. split; [|split; [exact Hfail|]].
    + rewrite (loop_reject_last _ _ _ _ _ _ _ err msg) by (trivial; lia).
      unfold w'. rewrite advance_advance.
      replace (N + 1)%nat with (S N) by lia.
      now replace (Z.of_nat N + 1) with n by lia.
    + right. left. split; [reflexivity|]. eauto 10.
  - exists (S m), (Thrown (TypeError t)), [].
    replace (S m - 1)%nat with m by lia. rewrite Hc.
    split; [lia|]. split; [|split; [exact Hfail|]].
    + rewrite (loop_reject_abort _ _ _ _ _ _ _ err (TypeError t))
        by (trivial; lia).
      unfold w'. rewrite advance_advance.
      now replace (m + 1)%nat with (S m) by lia.
    + right. right. eauto 10.
Qed.

(** The invocations and delays of a run, whichever way it ends. *)
Lemma retry_run_timeline ai params (n b : Z) c k last :
  invocations last = 0%nat -> timeline last = [] ->
  let evs := (flat_map (failed_attempt ai params n b c) (seq 1 (k - 1))
              ++ Invoke params :: last)%list in
  (1 <= k)%nat ->
  invocations evs = k
  /\ timeline evs = backoff_timeline params b 1 (k - 1)
  /\ delays evs = map (fun i => b * 2 ^ (Z.of_nat i - 1)) (seq 1 (k - 1)).
Proof.
  intros Hinv Htl evs Hk.
  assert (Ht : timeline evs = backoff_timeline params b 1 (k - 1)).
  { unfold evs, backoff_timeline.
    change (Invoke params :: last) with ([Invoke params] ++ last)%list.
    now rewrite !timeline_app, timeline_failed, Htl, app_nil_r. }
  split; [|split; [exact Ht|]].
  - unfold evs. rewrite invocations_app, invocations_failed, length_seq.
    change (Invoke params :: last) with ([Invoke params] ++ last)%list.
    rewrite invocations_app, Hinv. cbn. lia.
  - rewrite <- delays_timeline, Ht. apply delays_backoff_timeline.
Qed.

(** The three ways a run ends leave one console line or none after the
    last invocation. *)
Lemma response_line_untimed resp :
  invocations [response_line resp] = 0%nat /\ timeline [response_line resp] = [].
Proof. unfold response_line. now destruct (JSON.stringify resp). Qed.

(** How a run with at least one allowed attempt ends, how many invocations
    it makes and which delays it asks for. *)
Lemma retry_budget ai params (n b : Z) w :
  1 <= n ->
  exists k r evs,
    (1 <= k <= Z.to_nat n)%nat
    /\ generateWithRetry ai params n b w = (r, advance w k evs)
    /\ ((exists resp, r = Normal resp) \/ (exists err, r = Thrown err))
    /\ invocations evs = k
    /\ timeline evs = backoff_timeline params b 1 (k - 1)
    /\ delays evs = map (fun i => b * 2 ^ (Z.of_nat i - 1)) (seq 1 (k - 1))
    /\ (fails_through ai params (calls w) (Z.to_nat n) ->
        exists err, r = Thrown err)
    /\ (fails_cleanly ai params (calls w) (Z.to_nat n) -> k = Z.to_nat n).
Proof.
  intros Hn.
  destruct (retry_run ai params n b w Hn)
    as (k & r & last & Hk & Hrun & _ & Hend).
  exists k, r. eexists. split; [exact Hk|]. split; [exact Hrun|].
  assert (Hlast : invocations last = 0%nat /\ timeline last = []).
  { destruct Hend as [(resp & _ & _ & ->) | [(_ & err & msg & _ & _ & _ & ->)
                                            | (err & t & _ & _ & _ & ->)]];
      [apply response_line_untimed | split; reflexivity | split; reflexivity]. }
  split; [|split; [|split; [|split; [|split]]]].
  - destruct Hend as [(resp & _ & -> & _) | [(_ & err & msg & _ & _ & -> & _)
                                            | (err & t & _ & _ & -> & _)]]; eauto.
  - apply retry_run_timeline; [apply Hlast | apply Hlast | lia].
  - apply retry_run_timeline; [apply Hlast | apply Hlast | lia].
  - apply retry_run_timeline; [apply Hlast | apply Hlast | lia].
  - intros Hfail.
    destruct Hend as [(resp & Hres & _) | [(_ & err & msg & _ & _ & -> & _)
                                          | (err & t & _ & _ & -> & _)]]; eauto.
    destruct (Hfail (k - 1)%nat) as [err Herr]; [lia | congruence].
  - intros Hfail.
    destruct Hend as [(resp & Hres & _) | [(Hlast' & _)
                                          | (err & t & Herr & Ht & _)]];
      [| exact Hlast' |];
      (destruct (Hfail (k - 1)%nat) as (e & m & He & Hm); [lia | congruence]).
Qed.

(** The loop bound of the model is never what ends a run. *)
Lemma generateWithRetry_finishes ai params (n b : Z) w :
  fst (generateWithRetry ai params n b w) <> Unfinished.
Proof.
  destruct (Z.le_gt_cases 1 n) as [Hn | Hn].
  - destruct (retry_budget ai params n b w Hn)
      as (k & r & evs & _ & Hrun & Hend & _).
    rewrite Hrun. cbn.
    destruct Hend as [[resp ->] | [err ->]]; discriminate.
  - unfold generateWithRetry. rewrite loop_exit by lia. discriminate.
Qed.



(** The message line 49 computes for some errors, and two errors for which
    it computes none. *)
Example error_messages :
  error_message (Error "quota exceeded") = Normal (JStr "quota exceeded")
  /\ error_message (Error EmptyString) = Normal (JStr "Error")
  /\ error_message (JStr "boom") = Normal (JStr "boom")
  /\ error_message JUndefined = Normal (JStr "undefined")
  /\ error_message (JObj [("code", JInt 503)]) = Normal (JStr "[object Object]")
  /\ error_message (JObj [("toString", JInt 5)])
     = Thrown (TypeError "err?.toString is not a function")
  /\ error_message (JObj [("toString", JNull)])
     = Thrown (TypeError no_primitive).
Proof. repeat split. Qed.

(** A whole run against a client that always fails. *)
Example run_overloaded :
  generateWithRetry overloaded ask 3 1000 idle
  = (Thrown (Error "The model is overloaded"),
     advance idle 3
       [Invoke ask;
        ConsoleError [JStr "Gemini call failed (attempt 1/3):";
                      JStr "The model is overloaded"];
        Sleep 1000;
        Invoke ask;
        ConsoleError [JStr "Gemini call failed (attempt 2/3):";
                      JStr "The model is overloaded"];
        Sleep 2000;
        Invoke ask;
        ConsoleError [JStr "Gemini call failed (attempt 3/3):";
                      JStr "The model is overloaded"]]).
Proof. reflexivity. Qed.

(** A whole run against a client whose failures have a [toString] that is
    not a function: one invocation, no console line, no delay, and the
    TypeError of line 49 thrown in place of the client's error. *)
Example run_opaque_failure :
  generateWithRetry opaque_failure ask 3 1000 idle
  = (Thrown (TypeError "err?.toString is not a function"),
     advance idle 1 [Invoke ask]).
Proof. reflexivity. Qed.

Lemma overloaded_fails_cleanly params c k : fails_cleanly overloaded params c k.
Proof. intros i _. do 2 eexists. split; reflexivity. Qed.

Lemma overloaded_fails_through params c k : fails_through overloaded params c k.
Proof. intros i _. eexists. reflexivity. Qed.





(** C9. Called with [retries <= 0], generateWithRetry never enters the loop:
    it invokes the ModelClient zero times, leaves the world as it was, and
    returns [undefined], neither a response nor a thrown failure. *)
Theorem generateWithRetry_no_attempts ai params (retries initialDelay : Z) w :
  retries <= 0 ->
  generateWithRetry ai params retries initialDelay w = (Normal JUndefined, w).
Proof.
  intros H. unfold generateWithRetry. now apply loop_exit.
Qed.

Lemma generateWithRetry_no_attempts_witness :
  0 <= 0
  /\ generateWithRetry (answers (JObj [("text", JStr "ok")])) ask 0 1000 idle
     = (Normal JUndefined, idle).
Proof.
  split; [lia|]. apply generateWithRetry_no_attempts. lia.
Defined.

(** ** The two model endpoints *)

Lemma get_or_empty b k : JS.get (JS.or_else b (JObj [])) k = JS.get b k.
Proof.
  unfold JS.or_else. destruct b; cbn; try reflexivity;
    match goal with |- context [if ?c then _ else _] => destruct c end;
    reflexivity.
Qed.

(** POST /api/assistant once the prompt is there: the three ways the
    retrying call can end. *)
Lemma assistant_run ai req w :
  JS.truthy (JS.get (body req) "prompt") = true ->
  assistant ai req w
  = match generateWithRetry ai (assistant_request (JS.get (body req) "prompt"))
            default_retries default_initialDelay w with
    | (Normal response, w') =>
        (Normal (respond_ok (JObj [("success", JBool true);
                                   ("text", text_of response)])), w')
    | (Thrown err, w') =>
        (Normal (respond 503 (JObj [("success", JBool false);
                                    ("error", JStr "model unavailable");
                                    ("text", JStr mock)])),
         advance w' 0 [ConsoleError [JStr "Assistant final error:";
                                     JS.or_else (JS.get err "message") err]])
    | (Unfinished, w') => (Unfinished, w')
    end.
Proof.
  intros Hprompt. unfold assistant, try_catch at 1.
  rewrite get_or_empty, Hprompt. cbn [negb].
  unfold try_catch, bind. fold (assistant_request (JS.get (body req) "prompt")).
  destruct (generateWithRetry _ _ _ _ w) as [[response|err|] w']; reflexivity.
Qed.

(** POST /api/analyze-image once the file is there. *)
Lemma analyze_image_run ai req f w :
  file req = Some f ->
  analyze_image ai req w
  = match generateWithRetry ai (image_request f)
            default_retries default_initialDelay w with
    | (Normal response, w') =>
        (Normal (respond_ok (JObj [("success", JBool true);
                                   ("result", parse_or_wrap (text_of response))])),
         w')
    | (Thrown err, w') =>
        (Normal (respond 503 (JObj [("success", JBool false);
                                    ("error", JStr "model unavailable");
                                    ("result", fallback)])),
         advance w' 0 [ConsoleError [JStr "Analyze final error:";
                                     JS.or_else (JS.get err "message") err]])
    | (Unfinished, w') => (Unfinished, w')
    end.
Proof.
  intros Hfile. unfold analyze_image, try_catch at 1. rewrite Hfile.
  unfold try_catch, bind. fold (image_request f).
  destruct (generateWithRetry _ _ _ _ w) as [[response|err|] w']; reflexivity.
Qed.

(** The endpoint turns away a request whose prompt is falsy. *)
Lemma assistant_validation ai req w :
  JS.truthy (JS.get (body req) "prompt") = false ->
  assistant ai req w
  = (Normal (respond 400 (JObj [("success", JBool false);
                                ("error", JStr "Missing prompt")])), w).
Proof.
  intros H. unfold assistant, try_catch. now rewrite get_or_empty, H.
Qed.

(** Every request to the two endpoints is answered. *)
Lemma assistant_answers ai req w :
  exists r w', assistant ai req w = (Normal r, w').
Proof.
  destruct (JS.truthy (JS.get (body req) "prompt")) eqn:Hprompt.
  - rewrite (assistant_run _ _ _ Hprompt).
    pose proof (generateWithRetry_finishes ai
                  (assistant_request (JS.get (body req) "prompt"))
                  default_retries default_initialDelay w) as Hfin.
    destruct (generateWithRetry _ _ _ _ w) as [[response|err|] w'];
      [eauto | eauto | now destruct Hfin].
  - rewrite (assistant_validation _ _ _ Hprompt). eauto.
Qed.

Lemma analyze_image_answers ai req w :
  exists r w', analyze_image ai req w = (Normal r, w').
Proof.
  destruct (file req) as [f|] eqn:Hfile.
  - rewrite (analyze_image_run _ _ _ _ Hfile).
    pose proof (generateWithRetry_finishes ai (image_request f)
                  default_retries default_initialDelay w) as Hfin.
    destruct (generateWithRetry _ _ _ _ w) as [[response|err|] w'];
      [eauto | eauto | now destruct Hfin].
  - unfold analyze_image, try_catch. rewrite Hfile. cbn. eauto.
Qed.


(** C3. Whenever all the attempts of an image-analysis request fail, the
    endpoint answers 503 with [{ success: false, error: "model unavailable",
    result: fallback }]; [fallback] is one constant, the same for every
    client, request and world, with diagnosis "other" and
    refer_to_dermatologist false.  The ModelClient was then invoked between
    one and three times: three times when the message of each failure could
    be computed. *)
Theorem analyze_image_model_unavailable ai req f w :
  file req = Some f ->
  fails_through ai (image_request f) (calls w) 3 ->
  exists k evs,
    analyze_image ai req w
    = (Normal {| status := 503;
                 json := Json (JObj [("success", JBool false);
                                     ("error", JStr "model unavailable");
                                     ("result", fallback)]) |},
       advance w k evs)
    /\ invocations evs = k
    /\ (1 <= k <= 3)%nat
    /\ (fails_cleanly ai (image_request f) (calls w) 3 -> k = 3%nat)
    /\ JS.get fallback "diagnosis" = JStr "other"
    /\ JS.get fallback "refer_to_dermatologist" = JBool false.
Proof.
  intros Hfile Hfail.
  destruct (retry_budget ai (image_request f) default_retries
              default_initialDelay w)
    as (k & r & evs & Hk & Hrun & _ & Hinv & _ & _ & Hthrown & Hclean);
    [unfold default_retries; lia|].
  destruct (Hthrown Hfail) as [err ->].
  rewrite (analyze_image_run _ _ _ _ Hfile), Hrun.
  exists k. eexists. rewrite advance_advance, Nat.add_0_r.
  split; [reflexivity|]. split; [|split; [exact Hk|split; [exact Hclean|]]].
  - rewrite invocations_app, Hinv. cbn. lia.
  - split; reflexivity.
Qed.

Lemma analyze_image_model_unavailable_witness :
  file photo = Some png
  /\ fails_through overloaded (image_request png) (calls idle) 3
  /\ exists evs,
       analyze_image overloaded photo idle
       = (Normal {| status := 503;
                    json := Json (JObj [("success", JBool false);
                                        ("error", JStr "model unavailable");
                                        ("result", fallback)]) |},
          advance idle 3 evs)
       /\ invocations evs = 3%nat
       /\ JS.get fallback "diagnosis" = JStr "other"
       /\ JS.get fallback "refer_to_dermatologist" = JBool false.
Proof.
  split; [reflexivity|].
  assert (H : fails_through overloaded (image_request png) (calls idle) 3)
    by apply overloaded_fails_through.
  split; [exact H|].
  destruct (analyze_image_model_unavailable overloaded photo png idle eq_refl H)
    as (k & evs & Hrun & Hinv & _ & Hclean & Hfallback).
  rewrite (Hclean (overloaded_fails_cleanly _ _ _)) in Hrun, Hinv.
  exists evs. split; [exact Hrun|]. split; [exact Hinv | exact Hfallback].
Defined.

(** C4. Whenever the model call of an image-analysis request succeeds with
    text [s], the endpoint answers [{ success: true, result }] where [result]
    is the value [JSON.parse(s)] gives or, when [s] is not JSON,
    [{ rawText: s }]. *)
Theorem analyze_image_success ai req f w response w' s :
  file req = Some f ->
  generateWithRetry ai (image_request f) default_retries default_initialDelay w
  = (Normal response, w') ->
  JS.get response "text" = JStr s ->
  analyze_image ai req w
  = (Normal {| status := 200;
               json := Json (JObj [("success", JBool true);
                                   ("result",
                                    match JSON.parse s with
                                    | Some parsed => parsed
                                    | None => JObj [("rawText", JStr s)]
                                    end)]) |},
     w').
Proof.
  intros Hfile Hrun Htext.
  rewrite (analyze_image_run _ _ _ _ Hfile), Hrun.
  unfold text_of, parse_or_wrap. now rewrite Htext.
Qed.

(** The text [{"diagnosis":"acne","confidence":80}] comes back as the parsed
    object, the text [hello] as [{ rawText: "hello" }]. *)
Lemma analyze_image_success_witness :
  (exists w',
     analyze_image (answers (JObj [("text", JStr acne_text)])) photo idle
     = (Normal {| status := 200;
                  json := Json (JObj [("success", JBool true);
                                      ("result",
                                       JObj [("diagnosis", JStr "acne");
                                             ("confidence", JInt 80)])]) |},
        w'))
  /\ (exists w',
        analyze_image (answers (JObj [("text", JStr "hello")])) photo idle
        = (Normal {| status := 200;
                     json := Json (JObj [("success", JBool true);
                                         ("result",
                                          JObj [("rawText", JStr "hello")])]) |},
           w')).
Proof.
  split; eexists.
  - exact (analyze_image_success (answers (JObj [("text", JStr acne_text)]))
             photo png idle _ _ acne_text eq_refl eq_refl eq_refl).
  - exact (analyze_image_success (answers (JObj [("text", JStr "hello")]))
             photo png idle _ _ "hello" eq_refl eq_refl eq_refl).
Defined.

(** ** POST /api/assistant *)

(** C5. A POST /api/assistant request whose body has no prompt, or an empty
    one, is answered 400 [{ success: false, error: "Missing prompt" }]; the
    world is left as it was: no ModelClient invocation, no event. *)
Theorem assistant_missing_prompt ai req w :
  prompt_missing (body req) ->
  assistant ai req w
  = (Normal {| status := 400;
               json := Json (JObj [("success", JBool false);
                                   ("error", JStr "Missing prompt")]) |},
     w).
Proof.
  intros H. apply assistant_validation. now destruct H as [-> | ->].
Qed.

Lemma assistant_missing_prompt_witness :
  prompt_missing (JObj [])
  /\ assistant (answers (JObj [("text", JStr "hello")]))
       {| body := JObj []; file := None |} idle
     = (Normal {| status := 400;
                  json := Json (JObj [("success", JBool false);
                                      ("error", JStr "Missing prompt")]) |},
        idle).
Proof.
  assert (H : prompt_missing (JObj [])) by (left; reflexivity).
  split; [exact H|].
  exact (assistant_missing_prompt (answers (JObj [("text", JStr "hello")]))
           {| body := JObj []; file := None |} idle H).
Defined.

(** C6. Whenever the model call of an assistant request succeeds and the
    response carries a text, the endpoint answers
    [{ success: true, text }] with that text as it came: it is neither
    parsed nor wrapped. *)
Theorem assistant_success ai req w response w' :
  JS.truthy (JS.get (body req) "prompt") = true ->
  generateWithRetry ai (assistant_request (JS.get (body req) "prompt"))
    default_retries default_initialDelay w
  = (Normal response, w') ->
  JS.nullish (JS.get response "text") = false ->
  assistant ai req w
  = (Normal {| status := 200;
               json := Json (JObj [("success", JBool true);
                                   ("text", JS.get response "text")]) |},
     w').
Proof.
  intros Hprompt Hrun Htext.
  rewrite (assistant_run _ _ _ Hprompt), Hrun.
  unfold text_of, JS.coalesce. now rewrite Htext.
Qed.

(** A reply that happens to be JSON text is handed on as text. *)
Lemma assistant_success_witness :
  exists w',
    assistant (answers (JObj [("text", JStr acne_text)])) question idle
    = (Normal {| status := 200;
                 json := Json (JObj [("success", JBool true);
                                     ("text", JStr acne_text)]) |},
       w').
Proof.
  eexists.
  exact (assistant_success (answers (JObj [("text", JStr acne_text)]))
           question idle _ _ eq_refl eq_refl eq_refl).
Defined.

(** ** A response without text *)

Lemma stringify_object props : exists s, JSON.stringify (JObj props) = Some s.
Proof. eexists. reflexivity. Qed.

(** C10. When a successful response is an object whose text is absent,
    undefined or null, each endpoint puts [JSON.stringify(response)] in its
    place, and that is a string: an assistant request whose model call
    answers so gets that string as [text]; an image-analysis request whose
    model call answers so gets that string parsed or wrapped. *)
Theorem text_falls_back_to_stringify ai props :
  JS.nullish (JS.get (JObj props) "text") = true ->
  exists s,
    JSON.stringify (JObj props) = Some s
    /\ (forall req w w',
          JS.truthy (JS.get (body req) "prompt") = true ->
          generateWithRetry ai (assistant_request (JS.get (body req) "prompt"))
            default_retries default_initialDelay w
          = (Normal (JObj props), w') ->
          assistant ai req w
          = (Normal {| status := 200;
                       json := Json (JObj [("success", JBool true);
                                           ("text", JStr s)]) |},
             w'))
    /\ (forall req f w w',
          file req = Some f ->
          generateWithRetry ai (image_request f)
            default_retries default_initialDelay w
          = (Normal (JObj props), w') ->
          analyze_image ai req w
          = (Normal {| status := 200;
                       json := Json (JObj [("success", JBool true);
                                           ("result", parse_or_wrap (JStr s))]) |},
             w')).
Proof.
  intros Htext.
  destruct (stringify_object props) as [s Hs]. exists s.
  split; [exact Hs|]. split.
  - intros req w w' Hprompt Hask.
    rewrite (assistant_run _ _ _ Hprompt), Hask.
    unfold text_of, JS.coalesce, JSON_stringify. now rewrite Htext, Hs.
  - intros req f w w' Hfile Himage.
    rewrite (analyze_image_run _ _ _ _ Hfile), Himage.
    unfold text_of, JS.coalesce, JSON_stringify. now rewrite Htext, Hs.
Qed.

(** A response that holds only an empty list of candidates: the assistant
    answers its JSON text, the image-analysis endpoint the object that this
    text parses to. *)
Lemma text_falls_back_to_stringify_witness :
  JS.nullish (JS.get (JObj no_candidates) "text") = true
  /\ exists s wa' wi',
       JSON.stringify (JObj no_candidates) = Some s
       /\ s = "{" ++ JSON.quote "candidates" ++ ":[]}"
       /\ assistant (answers (JObj no_candidates)) question idle
          = (Normal {| status := 200;
                       json := Json (JObj [("success", JBool true);
                                           ("text", JStr s)]) |},
             wa')
       /\ analyze_image (answers (JObj no_candidates)) photo idle
          = (Normal {| status := 200;
                       json := Json (JObj [("success", JBool true);
                                           ("result", JObj no_candidates)]) |},
             wi').
Proof.
  split; [reflexivity|].
  destruct (text_falls_back_to_stringify (answers (JObj no_candidates))
              no_candidates eq_refl)
    as (s & Hs & Hask & Himage).
  injection Hs as <-.
  do 3 eexists. split; [reflexivity|]. split; [reflexivity|]. split.
  - exact (Hask question idle _ eq_refl eq_refl).
  - exact (Himage photo png idle _ eq_refl eq_refl).
Defined.

(** ** The shape of a result *)

(** [JSON.parse] never answers [undefined]. *)
Lemma deliver_end v stack v' stack' :
  JSON.deliver v stack = Some (JSON.XEnd v', stack') -> v' = v.
Proof.
  destruct stack as [|[items | props [k|]] stack]; cbn; congruence.
Qed.

Lemma open_value_end t stack v stack' :
  JSON.open_value t stack = Some (JSON.XEnd v, stack') -> v <> JUndefined.
Proof.
  destruct t; cbn; intros H; try discriminate;
    apply deliver_end in H; subst; discriminate.
Qed.

Lemma close_end t stack v stack' :
  JSON.close t stack = Some (JSON.XEnd v, stack') -> v <> JUndefined.
Proof.
  destruct t, stack as [|[items | props [k|]] stack]; cbn; intros H;
    try discriminate; apply deliver_end in H; subst; discriminate.
Qed.

Lemma key_end t stack v stack' :
  JSON.key t stack = Some (JSON.XEnd v, stack') -> False.
Proof.
  destruct t, stack as [|[items | props [k|]] stack]; cbn; discriminate.
Qed.

Lemma parse_step_end st t v stack' :
  JSON.parse_step st t = Some (JSON.XEnd v, stack') -> v <> JUndefined.
Proof.
  destruct st as [x stack]. destruct x; cbn.
  - apply open_value_end.
  - destruct t; first [apply open_value_end | apply close_end].
  - destruct t; intros H; try (now apply key_end in H);
      now apply close_end in H.
  - intros H. now apply key_end in H.
  - destruct t; discriminate.
  - destruct t, stack as [|[items | props k] stack]; try discriminate;
      apply close_end.
  - discriminate.
Qed.

Lemma parse_tokens_defined ts : forall st v,
  (forall v' stack, st = (JSON.XEnd v', stack) -> v' <> JUndefined) ->
  JSON.parse_tokens st ts = Some v -> v <> JUndefined.
Proof.
  induction ts as [|t ts IH]; intros st v Hst; cbn.
  - destruct st as [[] stack]; try discriminate.
    intros [= <-]. eapply Hst. reflexivity.
  - destruct (JSON.parse_step st t) as [st'|] eqn:E; [|discriminate].
    apply IH. intros v' stack ->. eapply parse_step_end, E.
Qed.

Lemma parse_defined s v : JSON.parse s = Some v -> v <> JUndefined.
Proof.
  unfold JSON.parse. destruct (JSON.lex s JSON.Idle []); [|discriminate].
  apply parse_tokens_defined. discriminate.
Qed.

(** Against C7 as stated: the model answers with the text [42], and the
    result of the success response is the bare number 42. *)
Lemma result_shape_counterexample :
  fst (analyze_image (answers (JObj [("text", JStr "42")])) photo idle)
  = Normal {| status := 200;
              json := Json (JObj [("success", JBool true);
                                  ("result", JInt 42)]) |}
  /\ ~ object_or_wrapper (JInt 42).
Proof.
  split; [reflexivity|].
  intros [[props H] | [s H]]; discriminate.
Qed.


(** C7, as the code has it.  In every image-analysis success response the
    result is present, and it is the value [JSON.parse] gave for the text,
    whatever its shape, or else the wrapper [{ rawText }] around the text.
    For stored records the schema asks that [result] be present and nothing
    of its shape: a valid document has a result that is neither null nor
    undefined, and every such value is the result of some valid document. *)
Theorem result_present_any_shape ai req f w response w' :
  file req = Some f ->
  generateWithRetry ai (image_request f) default_retries default_initialDelay w
  = (Normal response, w') ->
  (exists result,
     analyze_image ai req w
     = (Normal {| status := 200;
                  json := Json (JObj [("success", JBool true);
                                      ("result", result)]) |},
        w')
     /\ result <> JUndefined
     /\ ((exists s, JS.ToString (text_of response) = Some s
                    /\ JSON.parse s = Some result)
         \/ ((forall s, JS.ToString (text_of response) = Some s ->
                        JSON.parse s = None)
             /\ result = JObj [("rawText", text_of response)])))
  /\ (forall d, validate AnalysisSchema d = true -> JS.nullish (result d) = false)
  /\ (forall v, JS.nullish v = false ->
                exists d, validate AnalysisSchema d = true /\ result d = v).
Proof.
  intros Hfile Hrun. split; [|split].
  - rewrite (analyze_image_run _ _ _ _ Hfile), Hrun.
    exists (parse_or_wrap (text_of response)). split; [reflexivity|].
    unfold parse_or_wrap.
    destruct (JS.ToString (text_of response)) as [s|] eqn:Es.
    + destruct (JSON.parse s) as [v|] eqn:E.
      * split; [eapply parse_defined, E | left; eauto].
      * split; [discriminate | right]. split; [|reflexivity].
        now intros s' [= <-].
    + split; [discriminate | right]. split; [discriminate | reflexivity].
  - intros d H. unfold validate, AnalysisSchema in H. cbn in H.
    destruct (JS.nullish (result d)); [|reflexivity].
    rewrite !andb_false_r in H. cbn in H. rewrite ?andb_false_r in H.
    discriminate.
  - intros v Hv. exists (bare_record v). split; [|reflexivity].
    unfold validate, AnalysisSchema. cbn. now rewrite Hv.
Qed.

Lemma result_present_any_shape_witness :
  exists w' result,
    analyze_image (answers (JObj [("text", JStr "42")])) photo idle
    = (Normal {| status := 200;
                 json := Json (JObj [("success", JBool true);
                                     ("result", result)]) |},
       w')
    /\ result = JInt 42
    /\ validate AnalysisSchema (bare_record (JInt 42)) = true.
Proof.
  destruct (result_present_any_shape (answers (JObj [("text", JStr "42")]))
              photo png idle _ _ eq_refl eq_refl)
    as [(result & Hrun & _ & Hshape) _].
  do 2 eexists. split; [exact Hrun|]. split; [|reflexivity].
  destruct Hshape as [(s & Hs & H) | [H _]].
  - injection Hs as <-. now injection H as <-.
  - specialize (H _ eq_refl). discriminate.
Defined.

(** ** GET /api/analyses *)

Lemma in_firstn (n : nat) (l : list Doc) x : In x (firstn n l) -> In x l.
Proof.
  intros H. rewrite <- (firstn_skipn n l). apply in_or_app. now left.
Qed.

Lemma in_skipn (n : nat) (l : list Doc) x : In x (skipn n l) -> In x l.
Proof.
  intros H. rewrite <- (firstn_skipn n l). apply in_or_app. now right.
Qed.

Lemma StronglySorted_weaken (R R' : Doc -> Doc -> Prop) l :
  (forall a b, R a b -> R' a b) -> StronglySorted R l -> StronglySorted R' l.
Proof.
  intros HR. induction 1 as [|x l Hl IH Hx]; constructor; trivial.
  eapply Forall_impl; [|exact Hx]. intros b. apply HR.
Qed.

Section Ordering.

Variable le : Doc -> Doc -> bool.
Hypothesis le_total : forall a b, le a b = false -> le b a = true.
Hypothesis le_trans : forall a b c, le a b = true -> le b c = true -> le a c = true.

Local Abbreviation ordered := (StronglySorted (fun a b => le a b = true)).

Lemma insert_sorted_perm d l : Permutation (insert_sorted le d l) (d :: l).
Proof.
  induction l as [|x l IH]; cbn; [reflexivity|].
  destruct (le d x); [reflexivity|].
  rewrite IH. apply perm_swap.
Qed.

Lemma sorted_by_perm l : Permutation (sorted_by le l) l.
Proof.
  induction l as [|x l IH]; cbn; [reflexivity|].
  rewrite insert_sorted_perm. now constructor.
Qed.

Lemma insert_sorted_ordered d l : ordered l -> ordered (insert_sorted le d l).
Proof.
  induction 1 as [|x l Hl IH Hx]; cbn.
  - repeat constructor.
  - destruct (le d x) eqn:E.
    + constructor; [now constructor|].
      constructor; [assumption|].
      eapply Forall_impl; [|exact Hx]. intros b Hb. eapply le_trans; eauto.
    + constructor; [assumption|].
      eapply Permutation_Forall; [symmetry; apply insert_sorted_perm|].
      constructor; [now apply le_total | assumption].
Qed.

Lemma sorted_by_ordered l : ordered (sorted_by le l).
Proof.
  induction l as [|x l IH]; cbn; [constructor | now apply insert_sorted_ordered].
Qed.

Lemma ordered_firstn n l : ordered l -> ordered (firstn n l).
Proof.
  intros H. revert n. induction H as [|x l Hl IH Hx]; intros [|n]; cbn;
    try constructor; auto.
  apply Forall_forall. intros b Hb.
  rewrite Forall_forall in Hx. apply Hx. eapply in_firstn, Hb.
Qed.

Lemma ordered_split n l :
  ordered l ->
  Forall (fun b => Forall (fun a => le a b = true) (firstn n l)) (skipn n l).
Proof.
  intros H. revert n. induction H as [|x l Hl IH Hx]; intros [|n]; cbn.
  - constructor.
  - constructor.
  - apply Forall_forall. intros b _. constructor.
  - specialize (IH n). rewrite Forall_forall in IH, Hx |- *.
    intros b Hb. constructor; [|now apply IH].
    apply Hx. eapply in_skipn, Hb.
Qed.

End Ordering.

Lemma before_descending (a b : Doc) :
  before createdAt (-1) a b = true <-> createdAt b <= createdAt a.
Proof. unfold before. cbn. apply Z.leb_le. Qed.

(** What the listing query selects: 100 documents of the collection, or all
    of them when they are fewer, most recent first, none older left in than
    one left out. *)
Lemma select_newest collection :
  let L := select (limit 100 (sort createdAt (-1) find)) collection in
  exists rest,
    List.length L = Nat.min 100 (List.length collection)
    /\ newest_first L
    /\ Permutation (L ++ rest) collection
    /\ Forall (fun b => Forall (fun a => createdAt b <= createdAt a) L) rest.
Proof.
  cbn zeta. unfold select, limit, sort, find. cbn [order bound].
  set (le := before createdAt (-1)).
  assert (Htotal : forall a b, le a b = false -> le b a = true).
  { unfold le, before. cbn. intros a b H.
    apply Z.leb_gt in H. apply Z.leb_le. lia. }
  assert (Htrans : forall a b c, le a b = true -> le b c = true -> le a c = true).
  { unfold le, before. cbn. intros a b c H1 H2.
    apply Z.leb_le in H1, H2. apply Z.leb_le. lia. }
  exists (skipn 100 (sorted_by le collection)). repeat split.
  - rewrite length_firstn.
    now rewrite (Permutation_length (sorted_by_perm le collection)).
  - unfold newest_first.
    eapply StronglySorted_weaken;
      [| apply ordered_firstn, sorted_by_ordered; assumption].
    intros a b H. now apply before_descending.
  - rewrite firstn_skipn. apply sorted_by_perm.
  - eapply Forall_impl; [| apply ordered_split, sorted_by_ordered; assumption].
    intros b Hb. eapply Forall_impl; [|exact Hb].
    intros a H. now apply before_descending.
Qed.

Example list_analyses_stocked :
  fst (list_analyses photo stocked)
  = Normal {| status := 200;
              json := SuccessAnalyses
                        (map (fun i => nth i shelf (bare_record JNull))
                             [1; 2; 0]%nat) |}.
Proof. reflexivity. Qed.

Example list_analyses_unreachable :
  fst (list_analyses photo unreachable)
  = Normal {| status := 500;
              json := Json (JObj [("success", JBool false);
                                  ("error", JStr "buffering timed out")]) |}.
Proof. reflexivity. Qed.

(** C8. GET /api/analyses, served by the store, answers
    [{ success: true, analyses: L }] where [L] holds at most 100 records of
    the collection, most recent first (the records left out are no more
    recent than those in [L]); when the store fails with an error, it answers
    500 [{ success: false, error: <the error's message> }]. *)

(** C8. GET /api/analyses, served by the store, answers
    [{ success: true, analyses: L }] where [L] holds the 100 most recent
    records of the collection, or all of them when they are fewer, most
    recent first (the records left out are no more recent than those in
    [L]); when the store fails with an error, it answers 500
    [{ success: false, error: <the error's message> }]. *)
Theorem list_analyses_response req w :
  match fault (db w) with
  | None =>
      exists L rest,
        list_analyses req w
        = (Normal {| status := 200; json := SuccessAnalyses L |}, w)
        /\ List.length L = Nat.min 100 (List.length (docs (db w)))
        /\ newest_first L
        /\ Permutation (L ++ rest) (docs (db w))
        /\ Forall (fun b => Forall (fun a => createdAt b <= createdAt a) L) rest
  | Some message =>
      list_analyses req w
      = (Normal {| status := 500;
                   json := Json (JObj [("success", JBool false);
                                       ("error", JStr message)]) |},
         advance w 0 [ConsoleError [JStr "List analyses error:"; Error message]])
  end.
Proof.
  unfold list_analyses, try_catch, bind, exec.
  destruct (fault (db w)) as [message|].
  - reflexivity.
  - destruct (select_newest (docs (db w))) as (rest & Hlen & Hsorted & Hperm & Hcut).
    eexists. exists rest. repeat split; eassumption.
Qed.

(** Of the three sample records the listing gives all, the one created at
    time 30 first; of 120 records it gives 100, the oldest of them created
    at time 20; a store that cannot be reached gives 500. *)
Lemma list_analyses_response_witness :
  (exists L,
     list_analyses photo stocked
     = (Normal {| status := 200; json := SuccessAnalyses L |}, stocked)
     /\ map _id L = ["b"; "c"; "a"]
     /\ newest_first L)
  /\ (exists L rest,
        list_analyses photo crowded
        = (Normal {| status := 200; json := SuccessAnalyses L |}, crowded)
        /\ List.length L = 100%nat
        /\ List.length rest = 20%nat
        /\ newest_first L
        /\ Forall (fun a => 20 <= createdAt a) L
        /\ Forall (fun b => createdAt b <= 20) rest)
  /\ list_analyses photo unreachable
     = (Normal {| status := 500;
                  json := Json (JObj [("success", JBool false);
                                      ("error", JStr "buffering timed out")]) |},
        advance unreachable 0
          [ConsoleError [JStr "List analyses error:";
                         Error "buffering timed out"]]).
Proof.
  split; [|split].
  - destruct (list_analyses_response photo stocked)
      as (L & rest & Hrun & Hlen & Hsorted & _).
    exists L. split; [exact Hrun|]. split; [|exact Hsorted].
    injection Hrun as <-. reflexivity.
  - destruct (list_analyses_response photo crowded)
      as (L & rest & Hrun & Hlen & Hsorted & Hperm & Hcut).
    assert (Hl : List.length L = 100%nat) by exact Hlen.
    exists L, rest. split; [exact Hrun|]. split; [exact Hl|].
    assert (Hrest : List.length rest = 20%nat).
    { apply Permutation_length in Hperm. rewrite length_app, Hl in Hperm.
      change (List.length (docs (db crowded))) with 120%nat in Hperm. lia. }
    split; [exact Hrest|]. split; [exact Hsorted|].
    injection Hrun as HL. split.
    + rewrite <- HL. vm_compute. repeat constructor; discriminate.
    + eapply Forall_impl; [|exact Hcut]. intros b Hb.
      rewrite Forall_forall in Hb.
      assert (Hlast : createdAt (nth 99 L (bare_record JNull)) = 20)
        by (rewrite <- HL; reflexivity).
      rewrite <- Hlast. apply Hb, nth_In. lia.
  - exact (list_analyses_response photo unreachable).
Defined.

(** * Further properties *)

(** ** The log of a run *)




(** Past ASCII a code unit is not a byte: the two bytes of a character below
    U+0800 are one unit, and are kept or dropped together. *)
Example slice0_units :
  let e_acute := String (ascii_of_N 195) (String (ascii_of_N 169) EmptyString) in
  JS.slice0 1 (e_acute ++ "t") = e_acute
  /\ JS.slice0 2 ("t" ++ e_acute ++ "e") = "t" ++ e_acute.
Proof. split; reflexivity. Qed.





(** ** The waiting time of a run *)

Lemma waiting_app evs evs' : waiting (evs ++ evs') = waiting evs + waiting evs'.
Proof.
  unfold waiting. rewrite delays_app, map_app.
  induction (map timer_delay (delays evs)) as [|d l IH]; cbn; [reflexivity | lia].
Qed.

(** [b + 2b + 4b + ...]: the delays after failed attempts [first],
    [first + 1], ..., [first + m - 1]. *)
Lemma backoff_sum b m : forall first,
  (1 <= first)%nat ->
  fold_right Z.add 0 (map (fun i => b * 2 ^ (Z.of_nat i - 1)) (seq first m))
  = b * 2 ^ (Z.of_nat first - 1) * (2 ^ Z.of_nat m - 1).
Proof.
  induction m as [|m IH]; intros first Hfirst.
  - cbn. lia.
  - cbn [seq map fold_right]. rewrite IH by lia.
    replace (Z.of_nat (S first) - 1) with (Z.succ (Z.of_nat first - 1)) by lia.
    replace (Z.of_nat (S m)) with (Z.succ (Z.of_nat m)) by lia.
    rewrite !Z.pow_succ_r by lia. ring.
Qed.

(** A timer is set to the delay it is asked for when that lies between 1 ms
    and 2^31 - 1 ms. *)
Lemma timer_delay_exact ms : 1 <= ms <= 2147483647 -> timer_delay ms = ms.
Proof.
  intros H. unfold timer_delay.
  destruct (Z.ltb_spec ms 1); [lia|].
  destruct (Z.ltb_spec 2147483647 ms); [lia | reflexivity].
Qed.

(** The timers of a run are set to the delays asked for when the longest
    delay that [n] attempts can ask for is in that range. *)
Lemma backoff_timers b (n : Z) m : forall first,
  1 <= b -> b * 2 ^ (n - 1) <= 2147483647 ->
  (1 <= first)%nat -> Z.of_nat first + Z.of_nat m <= n ->
  map timer_delay (map (fun i => b * 2 ^ (Z.of_nat i - 1)) (seq first m))
  = map (fun i => b * 2 ^ (Z.of_nat i - 1)) (seq first m).
Proof.
  induction m as [|m IH]; intros first Hb Hmax Hfirst Hn; [reflexivity|].
  cbn [seq map]. rewrite IH by lia. f_equal.
  apply timer_delay_exact.
  assert (Hpow : 1 <= 2 ^ (Z.of_nat first - 1)) by (apply Z.pow_le_mono_r with (b := 0); lia).
  assert (Hle : 2 ^ (Z.of_nat first - 1) <= 2 ^ (n - 1))
    by (apply Z.pow_le_mono_r; lia).
  nia.
Qed.

(** X3. A run with [n >= 1] allowed attempts and a base delay [b >= 1],
    where the longest delay that [n] attempts can ask for, [b * 2^(n-1)],
    is one that a timer can be set to (at most 2^31 - 1 ms), stops at some
    attempt [k <= n].  It has then made [k] invocations, and its timers were
    set to [b * (2^(k-1) - 1)] milliseconds in all, which is at most
    [b * (2^(n-1) - 1)], what the timers add up to when all [n] attempts fail
    with errors whose message line 49 can compute. *)
Theorem generateWithRetry_waiting ai params (n b : Z) w :
  1 <= n -> 1 <= b -> b * 2 ^ (n - 1) <= 2147483647 ->
  exists k r evs,
    (1 <= k <= Z.to_nat n)%nat
    /\ generateWithRetry ai params n b w = (r, advance w k evs)
    /\ invocations evs = k
    /\ waiting evs = b * (2 ^ (Z.of_nat k - 1) - 1)
    /\ waiting evs <= b * (2 ^ (n - 1) - 1)
    /\ (fails_cleanly ai params (calls w) (Z.to_nat n) -> k = Z.to_nat n).
Proof.
  intros Hn Hb Hmax.
  destruct (retry_budget ai params n b w Hn)
    as (k & r & evs & Hk & Hrun & _ & Hinv & _ & Hdelays & _ & Hclean).
  exists k, r, evs.
  assert (Hwait : waiting evs = b * (2 ^ (Z.of_nat k - 1) - 1)).
  { unfold waiting.
    rewrite Hdelays, (backoff_timers b n), backoff_sum by lia.
    replace (Z.of_nat (k - 1)) with (Z.of_nat k - 1) by lia.
    change (Z.of_nat 1 - 1) with 0. rewrite Z.pow_0_r. ring. }
  repeat split; trivial; try lia.
  rewrite Hwait. apply Z.mul_le_mono_nonneg_l; [lia|].
  apply Z.sub_le_mono_r, Z.pow_le_mono_r; lia.
Qed.

(** With the defaults, a run that fails throughout sets its timers to three
    seconds in all. *)
Lemma generateWithRetry_waiting_witness :
  1 <= 3 /\ 1 <= 1000 /\ 1000 * 2 ^ (3 - 1) <= 2147483647
  /\ exists r evs,
       generateWithRetry overloaded ask 3 1000 idle = (r, advance idle 3 evs)
       /\ invocations evs = 3%nat
       /\ waiting evs = 3000.
Proof.
  split; [lia|]. split; [lia|]. split; [cbn; lia|].
  destruct (generateWithRetry_waiting overloaded ask 3 1000 idle
              ltac:(lia) ltac:(lia) ltac:(cbn; lia))
    as (k & r & evs & Hk & Hrun & Hinv & Hwait & _ & Hlast).
  rewrite (Hlast (overloaded_fails_cleanly _ _ _)) in *.
  exists r, evs. repeat split; assumption.
Defined.

(** ** What the two model endpoints can answer *)



(** What a request that reaches the model costs and how it can end. *)
Lemma default_budget ai params w :
  exists k r evs,
    (1 <= k <= 3)%nat
    /\ generateWithRetry ai params default_retries default_initialDelay w
       = (r, advance w k evs)
    /\ ((exists resp, r = Normal resp) \/ (exists err, r = Thrown err))
    /\ invocations evs = k
    /\ waiting evs <= 3000.
Proof.
  destruct (retry_budget ai params default_retries default_initialDelay w)
    as (k & r & evs & Hk & Hrun & Hend & Hinv & _ & Hdelays & _);
    [unfold default_retries; lia|].
  cbn in Hk. exists k, r, evs.
  split; [exact Hk|]. split; [exact Hrun|]. split; [exact Hend|].
  split; [exact Hinv|].
  unfold waiting. rewrite Hdelays. unfold default_initialDelay.
  assert (k = 1 \/ k = 2 \/ k = 3)%nat as [-> | [-> | ->]] by lia; cbn; lia.
Qed.


(** X5. Every assistant request is answered, with status 400, 200 or 503
    and never 500.  The status is 400 exactly when the prompt is falsy
    (absent, empty, null, false or 0), and then nothing was logged and the
    ModelClient was not invoked; any other prompt, of any type, reaches the
    ModelClient, which is invoked between one and three times with at most
    3000 ms of waiting in all. *)
Theorem assistant_outcomes ai req w :
  exists r k evs,
    assistant ai req w = (Normal r, advance w k evs)
    /\ invocations evs = k
    /\ (status r = 400 <-> JS.truthy (JS.get (body req) "prompt") = false)
    /\ (status r = 400 -> evs = [])
    /\ (status r <> 400 ->
        (status r = 200 \/ status r = 503) /\ (1 <= k <= 3)%nat
        /\ waiting evs <= 3000).
Proof.
  destruct (JS.truthy (JS.get (body req) "prompt")) eqn:Hprompt.
  - rewrite (assistant_run _ _ _ Hprompt).
    destruct (default_budget ai (assistant_request (JS.get (body req) "prompt")) w)
      as (k & r & evs & Hk & Hrun & Hend & Hinv & Hwait).
    rewrite Hrun.
    destruct Hend as [[resp ->] | [err ->]].
    + eexists. exists k, evs. split; [reflexivity|].
      cbn. repeat split; trivial; try lia; try discriminate; auto.
    + eexists. exists k. eexists. rewrite advance_advance, Nat.add_0_r.
      split; [reflexivity|]. rewrite invocations_app, waiting_app, Hinv.
      cbn. repeat split; trivial; try lia; try discriminate; auto.
  - rewrite (assistant_validation _ _ _ Hprompt).
    eexists. exists 0%nat, []. rewrite advance_zero. split; [reflexivity|].
    cbn. repeat split; trivial; try lia; try discriminate; try now intros [].
Qed.

(** X6. Every request that the upload middleware hands to the handler of
    POST /api/analyze-image is answered by the handler, with status 400, 200
    or 503: the handler itself never answers 500.  The status is 400 exactly
    when the request comes without [req.file], and then nothing was logged
    and the ModelClient was not invoked; with a file the ModelClient is
    invoked between one and three times with at most 3000 ms of waiting in
    all.  (An upload that the middleware refuses does not reach the
    handler.) *)
Theorem analyze_image_outcomes ai req w :
  exists r k evs,
    analyze_image ai req w = (Normal r, advance w k evs)
    /\ invocations evs = k
    /\ (status r = 400 <-> file req = None)
    /\ (status r = 400 -> evs = [])
    /\ (status r <> 400 ->
        (status r = 200 \/ status r = 503) /\ (1 <= k <= 3)%nat
        /\ waiting evs <= 3000).
Proof.
  destruct (file req) as [f|] eqn:Hfile.
  - rewrite (analyze_image_run _ _ _ _ Hfile).
    destruct (default_budget ai (image_request f) w)
      as (k & r & evs & Hk & Hrun & Hend & Hinv & Hwait).
    rewrite Hrun.
    destruct Hend as [[resp ->] | [err ->]].
    + eexists. exists k, evs. split; [reflexivity|].
      cbn. repeat split; trivial; try lia; try discriminate; auto.
    + eexists. exists k. eexists. rewrite advance_advance, Nat.add_0_r.
      split; [reflexivity|]. rewrite invocations_app, waiting_app, Hinv.
      cbn. repeat split; trivial; try lia; try discriminate; auto.
  - unfold analyze_image, try_catch. rewrite Hfile.
    eexists. exists 0%nat, []. rewrite advance_zero. split; [reflexivity|].
    cbn. repeat split; trivial; try lia; try discriminate; try now intros [].
Qed.

(** ** GET and DELETE /api/analyses/:id *)

Lemma find_has_id i l d :
  List.find (has_id i) l = Some d -> In d l /\ _id d = i.
Proof.
  intros H. apply find_some in H. destruct H as [Hin Hid].
  split; [exact Hin | now apply String.eqb_eq].
Qed.

Lemma find_no_id i l :
  List.find (has_id i) l = None <-> (forall d, In d l -> _id d <> i).
Proof.
  split.
  - intros H d Hin Hid. apply (find_none _ _ H) in Hin.
    unfold has_id in Hin. rewrite Hid, String.eqb_refl in Hin. discriminate.
  - intros H. induction l as [|d l IH]; [reflexivity|]. cbn.
    destruct (has_id i d) eqn:E.
    + apply String.eqb_eq in E. now destruct (H d (or_introl eq_refl)).
    + apply IH. intros d' Hd'. apply H. now right.
Qed.

Lemma remove_first_absent i l :
  List.find (has_id i) l = None -> remove_first i l = l.
Proof.
  induction l as [|d l IH]; cbn; [reflexivity|].
  destruct (has_id i d); [discriminate|]. intros H. now rewrite IH.
Qed.

Lemma remove_first_perm i l d :
  List.find (has_id i) l = Some d -> Permutation (d :: remove_first i l) l.
Proof.
  induction l as [|x l IH]; cbn; [discriminate|].
  destruct (has_id i x).
  - now intros [= ->].
  - intros H. rewrite perm_swap. constructor. now apply IH.
Qed.

Lemma find_other_after_remove i j l :
  i <> j ->
  List.find (has_id j) (remove_first i l) = List.find (has_id j) l.
Proof.
  intros Hij. induction l as [|x l IH]; cbn; [reflexivity|].
  destruct (has_id i x) eqn:Ei; cbn.
  - destruct (has_id j x) eqn:Ej; [|reflexivity].
    apply String.eqb_eq in Ei, Ej. congruence.
  - now rewrite IH.
Qed.

Lemma find_gone_after_remove i l :
  NoDup (map _id l) -> List.find (has_id i) (remove_first i l) = None.
Proof.
  induction l as [|x l IH]; cbn; [reflexivity|].
  intros Hnd. inversion Hnd as [|? ? Hx Hl]; subst.
  destruct (has_id i x) eqn:E; cbn.
  - apply find_no_id. intros d Hd Hid.
    apply String.eqb_eq in E. apply Hx.
    rewrite E, <- Hid. now apply in_map.
  - rewrite E. now apply IH.
Qed.

Lemma find_unique l d :
  NoDup (map _id l) -> In d l -> List.find (has_id (_id d)) l = Some d.
Proof.
  induction l as [|x l IH]; cbn; [contradiction|].
  intros Hnd Hin. inversion Hnd as [|? ? Hx Hl]; subst.
  destruct Hin as [-> | Hin].
  - unfold has_id. now rewrite String.eqb_refl.
  - destruct (has_id (_id d) x) eqn:E.
    + apply String.eqb_eq in E. destruct Hx. rewrite E. now apply in_map.
    + now apply IH.
Qed.

Lemma without_absent i w :
  fault (db w) = None ->
  List.find (has_id i) (docs (db w)) = None ->
  without i w = w.
Proof.
  destruct w as [c e [ds f]]. unfold without. cbn. intros -> H.
  now rewrite (remove_first_absent _ _ H).
Qed.

Section ByIdFacts.

Variable cast_id : string -> option string.
Variable cast_error : string -> string.

Local Abbreviation get := (get_analysis cast_id cast_error).
Local Abbreviation delete := (delete_analysis cast_id cast_error).

(** The two endpoints while the store answers and can cast the identifier. *)
Lemma get_analysis_run id i w :
  cast_id id = Some i -> fault (db w) = None ->
  get id w
  = (Normal match List.find (has_id i) (docs (db w)) with
            | Some d => {| record_status := 200; record_json := SuccessAnalysis d |}
            | None => {| record_status := 404; record_json := Plain not_found |}
            end, w).
Proof.
  intros Hid Hup. unfold get_analysis, try_catch, bind, findById.
  rewrite Hid, Hup. now destruct (List.find (has_id i) (docs (db w))).
Qed.

Lemma delete_analysis_run id i w :
  cast_id id = Some i -> fault (db w) = None ->
  delete id w
  = (Normal match List.find (has_id i) (docs (db w)) with
            | Some _ => respond_ok (JObj [("success", JBool true)])
            | None => respond 404 not_found
            end, without i w).
Proof.
  intros Hid Hup. unfold delete_analysis, try_catch, bind, findByIdAndDelete.
  rewrite Hid, Hup. now destruct (List.find (has_id i) (docs (db w))).
Qed.

(** X7. While the store answers, GET /api/analyses/:id returns 200 with a
    stored record that bears the identifier, or 404 "Not found" when no
    stored record bears it; either way the world is left as it was. *)
Theorem get_analysis_by_id id i w :
  cast_id id = Some i -> fault (db w) = None ->
  (exists d,
     In d (docs (db w)) /\ _id d = i
     /\ get id w
        = (Normal {| record_status := 200; record_json := SuccessAnalysis d |}, w))
  \/ ((forall d, In d (docs (db w)) -> _id d <> i)
      /\ get id w
         = (Normal {| record_status := 404; record_json := Plain not_found |}, w)).
Proof.
  intros Hid Hup. rewrite (get_analysis_run _ _ _ Hid Hup).
  destruct (List.find (has_id i) (docs (db w))) as [d|] eqn:E.
  - left. exists d. destruct (find_has_id _ _ _ E). auto.
  - right. split; [now apply find_no_id | reflexivity].
Qed.

(** X8. When the store cannot cast the identifier, or fails, both
    endpoints answer 500 [{ success: false, error: <the error's message> }]
    after one console line, and the collection is left as it was. *)
Theorem by_id_store_failure id w message :
  (cast_id id = None /\ fault (db w) = None /\ message = cast_error id)
  \/ (exists i, cast_id id = Some i /\ fault (db w) = Some message) ->
  get id w
  = (Normal {| record_status := 500;
               record_json := Plain (JObj [("success", JBool false);
                                           ("error", JStr message)]) |},
     advance w 0 [ConsoleError [JStr "Get analysis error:"; Error message]])
  /\ delete id w
     = (Normal {| status := 500;
                  json := Json (JObj [("success", JBool false);
                                      ("error", JStr message)]) |},
        advance w 0 [ConsoleError [JStr "Delete analysis error:"; Error message]]).
Proof.
  unfold get_analysis, delete_analysis, try_catch, bind, findById,
    findByIdAndDelete.
  intros [(Hid & Hup & ->) | (i & Hid & Hdown)]; rewrite Hid.
  - split; reflexivity.
  - rewrite Hdown. split; reflexivity.
Qed.

(** X9. While the store answers and can cast the identifier, DELETE
    /api/analyses/:id for an identifier that no stored record bears answers
    404 "Not found" and changes nothing.  (An identifier the store cannot
    cast, and a store that fails, are answered 500: see X8.) *)
Theorem delete_analysis_absent id i w :
  cast_id id = Some i -> fault (db w) = None ->
  (forall d, In d (docs (db w)) -> _id d <> i) ->
  delete id w
  = (Normal {| status := 404; json := Json not_found |}, w).
Proof.
  intros Hid Hup Habsent. apply find_no_id in Habsent.
  rewrite (delete_analysis_run _ _ _ Hid Hup), Habsent.
  now rewrite without_absent.
Qed.

(** X10. Identifiers being unique, a DELETE of a stored record answers
    [{ success: true }]; after it a GET of the same identifier answers 404,
    and so does a second DELETE, which changes nothing more. *)
Theorem delete_analysis_then_gone id i w d :
  cast_id id = Some i -> fault (db w) = None ->
  unique_ids w -> In d (docs (db w)) -> _id d = i ->
  delete id w
  = (Normal {| status := 200; json := Json (JObj [("success", JBool true)]) |},
     without i w)
  /\ get id (without i w)
     = (Normal {| record_status := 404; record_json := Plain not_found |},
        without i w)
  /\ delete id (without i w)
     = (Normal {| status := 404; json := Json not_found |}, without i w).
Proof.
  intros Hid Hup Huniq Hin Hd.
  assert (Hgone : List.find (has_id i) (docs (db (without i w))) = None)
    by (apply find_gone_after_remove, Huniq).
  split; [|split].
  - rewrite (delete_analysis_run _ _ _ Hid Hup).
    destruct (List.find (has_id i) (docs (db w))) eqn:E; [reflexivity|].
    rewrite find_no_id in E. now destruct (E d Hin).
  - rewrite (get_analysis_run _ i) by trivial. now rewrite Hgone.
  - rewrite (delete_analysis_run _ i) by trivial. rewrite Hgone.
    now rewrite without_absent.
Qed.

(** X11. A DELETE that finds its record removes that one record and no
    other: the collection before is the collection after plus the record,
    and a GET of any other identifier answers as it did before. *)
Theorem delete_analysis_keeps_others id i w :
  cast_id id = Some i -> fault (db w) = None ->
  (exists d, In d (docs (db w)) /\ _id d = i) ->
  exists d,
    In d (docs (db w)) /\ _id d = i
    /\ snd (delete id w) = without i w
    /\ Permutation (d :: docs (db (without i w))) (docs (db w))
    /\ (forall id' i', cast_id id' = Some i' -> i' <> i ->
                       fst (get id' (without i w)) = fst (get id' w)).
Proof.
  intros Hid Hup [d0 [Hin0 Hd0]].
  destruct (List.find (has_id i) (docs (db w))) as [d|] eqn:E.
  - destruct (find_has_id _ _ _ E) as [Hin Hd]. exists d.
    split; [exact Hin|]. split; [exact Hd|]. split; [|split].
    + now rewrite (delete_analysis_run _ _ _ Hid Hup).
    + now apply remove_first_perm.
    + intros id' i' Hid' Hneq.
      rewrite (get_analysis_run _ i' (without i w)), (get_analysis_run _ i' w)
        by trivial.
      cbn. now rewrite find_other_after_remove by congruence.
  - rewrite find_no_id in E. now destruct (E d0 Hin0).
Qed.

(** X12. Identifiers being unique, once a record is deleted
    GET /api/analyses lists only records of the earlier collection, and none
    that bears the deleted identifier. *)
Theorem list_analyses_after_delete id i w req :
  cast_id id = Some i -> fault (db w) = None -> unique_ids w ->
  exists L,
    list_analyses req (snd (delete id w))
    = (Normal {| status := 200; json := SuccessAnalyses L |}, snd (delete id w))
    /\ (forall d, In d L -> In d (docs (db w)) /\ _id d <> i).
Proof.
  intros Hid Hup Huniq.
  rewrite (delete_analysis_run _ _ _ Hid Hup). cbn [snd].
  destruct (select_newest (docs (db (without i w))))
    as (rest & _ & _ & Hperm & _).
  eexists. split; [reflexivity|].
  intros d Hd.
  assert (Hin : In d (docs (db (without i w)))).
  { eapply Permutation_in; [exact Hperm|]. apply in_or_app. now left. }
  split.
  - cbn in Hin.
    destruct (List.find (has_id i) (docs (db w))) as [d0|] eqn:E.
    + eapply Permutation_in; [apply (remove_first_perm _ _ _ E)|]. now right.
    + now rewrite (remove_first_absent _ _ E) in Hin.
  - exact (proj1 (find_no_id i _)
             (find_gone_after_remove i (docs (db w)) Huniq) d Hin).
Qed.

(** X13. Identifiers being unique, every record that GET /api/analyses
    lists can be fetched: a GET of its identifier, when the store casts that
    identifier to itself, answers 200 with that very record. *)
Theorem listed_analysis_can_be_fetched req w L d :
  unique_ids w ->
  list_analyses req w
  = (Normal {| status := 200; json := SuccessAnalyses L |}, w) ->
  In d L ->
  cast_id (_id d) = Some (_id d) ->
  get (_id d) w
  = (Normal {| record_status := 200; record_json := SuccessAnalysis d |}, w).
Proof.
  intros Huniq Hlist Hin Hid.
  unfold list_analyses, try_catch, bind, exec in Hlist.
  destruct (fault (db w)) as [message|] eqn:Hup; [discriminate|].
  injection Hlist as <-.
  destruct (select_newest (docs (db w))) as (rest & _ & _ & Hperm & _).
  assert (Hd : In d (docs (db w))).
  { eapply Permutation_in; [exact Hperm|]. apply in_or_app. now left. }
  rewrite (get_analysis_run _ _ _ Hid Hup).
  now rewrite (find_unique _ _ Huniq Hd).
Qed.

End ByIdFacts.

(** *** On the three sample records *)

Lemma shelf_unique : unique_ids stocked.
Proof.
  unfold unique_ids. cbn. repeat constructor; cbn; intuition discriminate.
Qed.

Lemma shelf_has_no_d : forall d, In d (docs (db stocked)) -> _id d <> "d".
Proof.
  cbn. intros d [<- | [<- | [<- | []]]]; discriminate.
Qed.

Lemma get_analysis_by_id_witness :
  stored_ids "b" = Some "b" /\ fault (db stocked) = None
  /\ exists d,
       In d shelf /\ _id d = "b" /\ createdAt d = 30
       /\ get_analysis stored_ids not_an_id "b" stocked
          = (Normal {| record_status := 200; record_json := SuccessAnalysis d |},
             stocked).
Proof.
  split; [reflexivity|]. split; [reflexivity|].
  destruct (get_analysis_by_id stored_ids not_an_id "b" "b" stocked
              eq_refl eq_refl) as [(d & Hin & Hid & Hget) | [Habsent _]].
  - exists d. repeat split; trivial.
    cbn in Hin. destruct Hin as [<- | [<- | [<- | []]]];
      try discriminate; reflexivity.
  - exfalso. apply (Habsent (nth 1 shelf (bare_record JNull))); cbn; auto.
Defined.

Lemma by_id_store_failure_witness :
  (stored_ids "zzz" = None /\ fault (db stocked) = None
   /\ not_an_id "zzz" = not_an_id "zzz")
  /\ fst (get_analysis stored_ids not_an_id "zzz" stocked)
     = Normal {| record_status := 500;
                 record_json :=
                   Plain (JObj [("success", JBool false);
                                ("error", JStr (not_an_id "zzz"))]) |}
  /\ delete_analysis stored_ids not_an_id "a" unreachable
     = (Normal {| status := 500;
                  json := Json (JObj [("success", JBool false);
                                      ("error", JStr "buffering timed out")]) |},
        advance unreachable 0
          [ConsoleError [JStr "Delete analysis error:";
                         Error "buffering timed out"]]).
Proof.
  assert (H : stored_ids "zzz" = None /\ fault (db stocked) = None
              /\ not_an_id "zzz" = not_an_id "zzz") by (repeat split).
  split; [exact H|]. split.
  - rewrite (proj1 (by_id_store_failure stored_ids not_an_id "zzz" stocked
                      (not_an_id "zzz") (or_introl H))).
    reflexivity.
  - apply (by_id_store_failure stored_ids not_an_id "a" unreachable).
    right. exists "a". split; reflexivity.
Defined.

Lemma delete_analysis_absent_witness :
  stored_ids "d" = Some "d" /\ fault (db stocked) = None
  /\ (forall d, In d (docs (db stocked)) -> _id d <> "d")
  /\ delete_analysis stored_ids not_an_id "d" stocked
     = (Normal {| status := 404; json := Json not_found |}, stocked).
Proof.
  split; [reflexivity|]. split; [reflexivity|]. split; [exact shelf_has_no_d|].
  exact (delete_analysis_absent stored_ids not_an_id "d" "d" stocked
           eq_refl eq_refl shelf_has_no_d).
Defined.

Lemma delete_analysis_then_gone_witness :
  unique_ids stocked
  /\ In (nth 1 shelf (bare_record JNull)) (docs (db stocked))
  /\ delete_analysis stored_ids not_an_id "b" stocked
     = (Normal {| status := 200; json := Json (JObj [("success", JBool true)]) |},
        without "b" stocked)
  /\ map _id (docs (db (without "b" stocked))) = ["a"; "c"]
  /\ get_analysis stored_ids not_an_id "b" (without "b" stocked)
     = (Normal {| record_status := 404; record_json := Plain not_found |},
        without "b" stocked)
  /\ delete_analysis stored_ids not_an_id "b" (without "b" stocked)
     = (Normal {| status := 404; json := Json not_found |}, without "b" stocked).
Proof.
  assert (Hin : In (nth 1 shelf (bare_record JNull)) (docs (db stocked)))
    by (cbn; auto).
  split; [exact shelf_unique|]. split; [exact Hin|].
  destruct (delete_analysis_then_gone stored_ids not_an_id "b" "b" stocked _
              eq_refl eq_refl shelf_unique Hin eq_refl) as (H1 & H2 & H3).
  repeat split; trivial.
Defined.

Lemma delete_analysis_keeps_others_witness :
  (exists d, In d (docs (db stocked)) /\ _id d = "b")
  /\ exists d,
       _id d = "b"
       /\ Permutation (d :: docs (db (without "b" stocked))) shelf
       /\ fst (get_analysis stored_ids not_an_id "c" (without "b" stocked))
          = fst (get_analysis stored_ids not_an_id "c" stocked).
Proof.
  assert (H : exists d, In d (docs (db stocked)) /\ _id d = "b")
    by (exists (nth 1 shelf (bare_record JNull)); cbn; auto).
  split; [exact H|].
  destruct (delete_analysis_keeps_others stored_ids not_an_id "b" "b" stocked
              eq_refl eq_refl H) as (d & _ & Hid & _ & Hperm & Hothers).
  exists d. split; [exact Hid|]. split; [exact Hperm|].
  apply (Hothers "c" "c"); [reflexivity | discriminate].
Defined.

Lemma list_analyses_after_delete_witness :
  unique_ids stocked
  /\ exists L,
       fst (list_analyses photo (without "b" stocked))
       = Normal {| status := 200; json := SuccessAnalyses L |}
       /\ map _id L = ["c"; "a"]
       /\ (forall d, In d L -> In d shelf /\ _id d <> "b").
Proof.
  split; [exact shelf_unique|].
  destruct (list_analyses_after_delete stored_ids not_an_id "b" "b" stocked photo
              eq_refl eq_refl shelf_unique) as (L & Hlist & HL).
  cbn in Hlist. injection Hlist as <-.
  eexists. split; [reflexivity|]. split; [reflexivity | exact HL].
Defined.

Lemma listed_analysis_can_be_fetched_witness :
  unique_ids stocked
  /\ get_analysis stored_ids not_an_id "c" stocked
     = (Normal {| record_status := 200;
                  record_json := SuccessAnalysis (nth 2 shelf (bare_record JNull)) |},
        stocked).
Proof.
  split; [exact shelf_unique|].
  apply (listed_analysis_can_be_fetched stored_ids not_an_id photo stocked
           (map (fun i => nth i shelf (bare_record JNull)) [1; 2; 0]%nat)
           (nth 2 shelf (bare_record JNull)) shelf_unique).
  - reflexivity.
  - cbn. auto.
  - reflexivity.
Defined.

(** ** What the ModelClient is asked *)

Lemma backoff_timeline_invokes params b first k e :
  In e (backoff_timeline params b first k) ->
  is_invoke e = true -> e = Invoke params.
Proof.
  unfold backoff_timeline. intros Hin He.
  apply in_app_or in Hin. destruct Hin as [Hin | [<- | []]]; [|reflexivity].
  apply in_flat_map in Hin. destruct Hin as (i & _ & [<- | [<- | []]]);
    [reflexivity | discriminate].
Qed.

(** Every invocation of a run carries the request it was given. *)
Lemma retry_invokes ai params (n b : Z) w :
  1 <= n ->
  exists k r evs,
    generateWithRetry ai params n b w = (r, advance w k evs)
    /\ ((exists resp, r = Normal resp) \/ (exists err, r = Thrown err))
    /\ (1 <= invocations evs)%nat
    /\ Forall (fun e => is_invoke e = true -> e = Invoke params) evs.
Proof.
  intros Hn.
  destruct (retry_budget ai params n b w Hn)
    as (k & r & evs & Hk & Hrun & Hend & Hinv & Htl & _).
  exists k, r, evs. split; [exact Hrun|]. split; [exact Hend|].
  split; [lia|].
  - apply Forall_forall. intros e Hin He.
    apply (backoff_timeline_invokes params b 1 (k - 1)); [|exact He].
    rewrite <- Htl. apply filter_In. split; [exact Hin|].
    destruct e; cbn in *; congruence.
Qed.

(** X14. Whatever the number of attempts, every invocation an endpoint
    makes carries one and the same request.  For the assistant it names the
    model gemini-2.5-flash and holds the fixed system prompt followed by the
    prompt as it came; for the image analysis it holds the upload in base64
    with its media type, or image/jpeg when the upload names none, followed
    by the fixed instructions. *)
Theorem endpoint_requests ai w :
  (forall req,
     JS.truthy (JS.get (body req) "prompt") = true ->
     exists r k evs,
       assistant ai req w = (Normal r, advance w k evs)
       /\ (1 <= invocations evs)%nat
       /\ Forall
            (fun e =>
               is_invoke e = true ->
               e = Invoke
                     (JObj [("model", JStr "gemini-2.5-flash");
                            ("contents",
                             JArr [JObj [("text", JStr systemPrompt)];
                                   JObj [("text", JS.get (body req) "prompt")]])]))
            evs)
  /\ (forall req f,
        file req = Some f ->
        exists r k evs,
          analyze_image ai req w = (Normal r, advance w k evs)
          /\ (1 <= invocations evs)%nat
          /\ Forall
               (fun e =>
                  is_invoke e = true ->
                  e = Invoke
                        (JObj [("model", JStr "gemini-2.5-flash");
                               ("contents",
                                JArr [JObj [("inlineData",
                                            JObj [("mimeType",
                                                   JStr (media_type f));
                                                  ("data",
                                                   JStr (base64 (buffer f)))])];
                                      JObj [("text", JStr userPrompt)]])]))
               evs).
Proof.
  split.
  - intros req Hprompt. rewrite (assistant_run _ _ _ Hprompt).
    destruct (retry_invokes ai (assistant_request (JS.get (body req) "prompt"))
                default_retries default_initialDelay w)
      as (k & r & evs & Hrun & Hend & Hinv & Hall);
      [unfold default_retries; lia|].
    rewrite Hrun. destruct Hend as [[resp ->] | [err ->]].
    + eexists. exists k, evs. repeat split; trivial.
    + eexists. exists k. eexists. rewrite advance_advance, Nat.add_0_r.
      split; [reflexivity|]. rewrite invocations_app. split; [lia|].
      apply Forall_app. split; [exact Hall|].
      constructor; [discriminate | constructor].
  - intros req f Hfile. rewrite (analyze_image_run _ _ _ _ Hfile).
    destruct (retry_invokes ai (image_request f)
                default_retries default_initialDelay w)
      as (k & r & evs & Hrun & Hend & Hinv & Hall);
      [unfold default_retries; lia|].
    assert (Hreq : image_request f
                   = JObj [("model", JStr "gemini-2.5-flash");
                           ("contents",
                            JArr [JObj [("inlineData",
                                        JObj [("mimeType", JStr (media_type f));
                                              ("data",
                                               JStr (base64 (buffer f)))])];
                                  JObj [("text", JStr userPrompt)]])]).
    { unfold image_request, media_type, JS.or_else, JS.truthy.
      now destruct (String.eqb (mimetype f) EmptyString). }
    rewrite <- Hreq. rewrite Hrun. destruct Hend as [[resp ->] | [err ->]].
    + eexists. exists k, evs. repeat split; trivial.
    + eexists. exists k. eexists. rewrite advance_advance, Nat.add_0_r.
      split; [reflexivity|]. rewrite invocations_app. split; [lia|].
      apply Forall_app. split; [exact Hall|].
      constructor; [discriminate | constructor].
Qed.

Lemma endpoint_requests_witness :
  JS.truthy (JS.get (body question) "prompt") = true
  /\ file photo = Some png
  /\ (exists r k evs,
        assistant overloaded question idle = (Normal r, advance idle k evs)
        /\ (1 <= invocations evs)%nat
        /\ Forall (fun e =>
                     is_invoke e = true ->
                     e = Invoke (assistant_request (JStr "Is this a rash?")))
                  evs)
  /\ (exists r k evs,
        analyze_image overloaded photo idle = (Normal r, advance idle k evs)
        /\ (1 <= invocations evs)%nat
        /\ Forall (fun e => is_invoke e = true -> e = Invoke (image_request png))
                  evs).
Proof.
  split; [reflexivity|]. split; [reflexivity|].
  destruct (endpoint_requests overloaded idle) as [Hask Himage].
  split.
  - exact (Hask question eq_refl).
  - exact (Himage photo png eq_refl).
Defined.

(** ** The schedule of a run *)


